(** * scansboms: bulk SBOM submission with a bounded pool of polling workers

    A shallow embedding of [scansboms.py].  The pure helpers
    ([parse_filename], [submit_sbom_scan], [check_scan_status]) are functions
    of the outcome of the I/O they perform; [scan_worker] and [main] are
    small-step machines over the state the threads share (the semaphore, the
    lock and the one-cell counter), interleaved by an arbitrary schedule. *)

From Stdlib Require Import ZArith Ascii String List Lia.
From stdpp Require Import base option list strings.

Import ListNotations.
Local Open Scope string_scope.
Local Open Scope list_scope.
Local Open Scope Z_scope.

(** ** Configuration *)

Definition STATUS_CHECK_INTERVAL : Z := 10.
Definition MAX_CONCURRENT_SCANS : Z := 10.

(** ** Python values that reach the code *)

(** What [response.json()] can return.  Numbers are integers here; a JSON
    object is a Python dict, kept as an association list read from the
    front. *)
#[warnings="-register-all"]
Inductive pyval :=
| PyNone
| PyBool (b : bool)
| PyInt (z : Z)
| PyStr (s : string)
| PyList (l : list pyval)
| PyDict (d : list (string * pyval)).

(** Truth value of an object, as [if x] / [not x] / [all] take it. *)
Definition truthy (v : pyval) : bool :=
  match v with
  | PyNone => false
  | PyBool b => b
  | PyInt z => negb (z =? 0)
  | PyStr s => negb (String.eqb s "")
  | PyList l => match l with [] => false | _ => true end
  | PyDict d => match d with [] => false | _ => true end
  end.

(** [d.get(key, default)] *)
Fixpoint dict_get (d : list (string * pyval)) (key : string) (default : pyval) : pyval :=
  match d with
  | [] => default
  | (k, v) :: d' => if String.eqb k key then v else dict_get d' key default
  end.

(** The exceptions the program can meet.  [requests] raises subclasses of
    [RequestException], itself a subclass of [IOError] (an alias of
    [OSError]); [HTTPError] comes from [raise_for_status]; [JSONDecodeError]
    is the one of [requests.exceptions], a [RequestException] too.
    [ValueError] and [RecursionError] are what [json.loads] lets through
    [response.json()] unwrapped (an integer literal beyond the digit limit,
    a nesting too deep); they are neither [RequestException] nor
    [IOError]. *)
Inductive exn :=
| HTTPError (status : Z) (text : string)
| ConnectionError (detail : string)
| Timeout (detail : string)
| RequestException (detail : string)
| JSONDecodeError (detail : string)
| OSError (detail : string)
| AttributeError (detail : string)
| ValueError (detail : string)
| RecursionError (detail : string).

Definition isinstance_HTTPError (e : exn) : bool :=
  match e with HTTPError _ _ => true | _ => false end.

Definition isinstance_RequestException (e : exn) : bool :=
  match e with
  | HTTPError _ _ | ConnectionError _ | Timeout _
  | RequestException _ | JSONDecodeError _ => true
  | OSError _ | AttributeError _ | ValueError _ | RecursionError _ => false
  end.

Definition isinstance_IOError (e : exn) : bool :=
  match e with
  | OSError _ => true
  | AttributeError _ | ValueError _ | RecursionError _ => false
  | _ => isinstance_RequestException e
  end.

(** What the program prints, one constructor for each [print] of the source. *)
Inductive msg :=
| MsgInvalidFilename (filename : string)
| MsgSubmitting (app_id stage filename : string)
| MsgSubmitted (status_url : pyval)
| MsgSubmitStatus (filename : string) (status : Z) (text : string)
| MsgSubmitHTTPError (filename : string) (e : exn)
| MsgServerResponse (status : Z) (text : string)
| MsgSubmitNetworkError (filename : string) (e : exn)
| MsgReadError (path : string) (e : exn)
| MsgScanFailed (status_url : pyval) (error_message : pyval)
| MsgScanCompleted (status_url : pyval)
| MsgStillInProgress (status_url : pyval)
| MsgStatusError (status_url : pyval) (e : exn)
| MsgWorkerFinished (filename : string) (slots : Z)
| MsgProcessed (current_count : Z) (total_files : Z)
| MsgFound (total_files : Z)
| MsgNoFiles
| MsgAcquired (filename : string)
| MsgAllProcessed (total_files : Z).

(** ** A monad for code that prints and may raise *)

Inductive result (A : Type) :=
| Return (a : A)
| Raise (e : exn).
Arguments Return {A} a.
Arguments Raise {A} e.

Definition io (A : Type) : Type := list msg * result A.

Definition io_ret {A} (a : A) : io A := ([], Return a).
Definition io_raise {A} (e : exn) : io A := ([], Raise e).
Definition print (m : msg) : io unit := ([m], Return tt).

Definition io_bind {A B} (c : io A) (k : A -> io B) : io B :=
  match c with
  | (out, Return a) => let '(out', r) := k a in (out ++ out', r)
  | (out, Raise e) => (out, Raise e)
  end.

(** [try: c  except ...: handler e]; the handler re-raises what it does not
    catch. *)
Definition io_try {A} (c : io A) (handler : exn -> io A) : io A :=
  match c with
  | (out, Return a) => (out, Return a)
  | (out, Raise e) => let '(out', r) := handler e in (out ++ out', r)
  end.

#[global] Instance io_mret : MRet io := @io_ret.
#[global] Instance io_mbind : MBind io := fun A B k c => io_bind c k.

(** ** parse_filename *)

(** [s.rpartition(c)] when [c] occurs in [s]: the text before and after the
    last occurrence. *)
Fixpoint rsplit1 (c : ascii) (s : string) : option (string * string) :=
  match s with
  | EmptyString => None
  | String a r =>
      match rsplit1 c r with
      | Some (h, t) => Some (String a h, t)
      | None => if Ascii.eqb a c then Some (EmptyString, r) else None
      end
  end.

(** [os.path.basename] (POSIX) *)
Definition basename (p : string) : string :=
  match rsplit1 "/" p with
  | Some (_, t) => t
  | None => p
  end.

Fixpoint all_dots (s : string) : bool :=
  match s with
  | EmptyString => true
  | String a r => Ascii.eqb a "." && all_dots r
  end.

(** [os.path.splitext] on a name without directory part: the extension
    starts at the last dot, unless only dots come before it. *)
Definition splitext (p : string) : string * string :=
  match rsplit1 "." p with
  | Some (h, t) => if all_dots h then (p, EmptyString) else (h, String "." t)
  | None => (p, EmptyString)
  end.

(** [s.rsplit('_', 2)] *)
Definition rsplit_2 (s : string) : list string :=
  match rsplit1 "_" s with
  | None => [s]
  | Some (h, t2) =>
      match rsplit1 "_" h with
      | None => [h; t2]
      | Some (h1, t1) => [h1; t1; t2]
      end
  end.

(** The tuple returned: [None] stands for [(None, None, None)].  Nothing in
    the body raises on a [str], so the [except Exception] arm is dead. *)
Definition parse_filename (filepath : string) : io (option (string * string * string)) :=
  let filename := basename filepath in
  let name_without_ext := fst (splitext filename) in
  match rsplit_2 name_without_ext with
  | [app_name; stage; app_id] => io_ret (Some (app_name, stage, app_id))
  | _ => print (MsgInvalidFilename filename) ;; io_ret None
  end.

(** [all([app_name, stage, app_id])] on the tuple of [parse_filename] *)
Definition all_parts (parts : option (string * string * string)) : bool :=
  match parts with
  | Some (app_name, stage, app_id) =>
      truthy (PyStr app_name) && truthy (PyStr stage) && truthy (PyStr app_id)
  | None => false
  end.

(** ** The remote server, as the code sees it *)

(** [json] is what [response.json()] returns, [None] when it raises;
    [json_error] is what it raises then: the [JSONDecodeError] of
    [requests.exceptions] for a body that is not JSON, or an exception of
    [json.loads] that [requests] does not wrap ([ValueError],
    [RecursionError]). *)
Record response := {
  status_code : Z;
  text : string;
  json : option pyval;
  json_error : exn
}.

(** Outcome of [requests.post] / [requests.get]. *)
Inductive reply :=
| Raises (e : exn)
| Responds (r : response).

(** Outcome of [open(path, 'rb').read()]. *)
Inductive file_read :=
| ReadOk (content : string)
| ReadRaises (e : exn).

Definition raise_for_status (r : response) : io unit :=
  if (400 <=? status_code r) && (status_code r <? 600)
  then io_raise (HTTPError (status_code r) (text r))
  else io_ret tt.

(** [response.json()] *)
Definition response_json (r : response) : io pyval :=
  match json r with
  | Some v => io_ret v
  | None => io_raise (json_error r)
  end.

(** [v.get(key, default)]: only a dict has the method. *)
Definition py_get (v : pyval) (key : string) (default : pyval) : io pyval :=
  match v with
  | PyDict d => io_ret (dict_get d key default)
  | _ => io_raise (AttributeError "get")
  end.

Definition lift_reply (r : reply) : io response :=
  match r with
  | Raises e => io_raise e
  | Responds r => io_ret r
  end.

Definition lift_read (f : file_read) : io string :=
  match f with
  | ReadOk c => io_ret c
  | ReadRaises e => io_raise e
  end.

(** ** submit_sbom_scan *)

Definition submit_sbom_scan (app_id stage sbom_file_path : string)
    (file : file_read) (post : reply) : io pyval :=
  io_try
    (sbom_content ← lift_read file ;
     print (MsgSubmitting app_id stage (basename sbom_file_path)) ;;
     response ← lift_reply post ;
     raise_for_status response ;;
     if status_code response =? 202 then
       body ← response_json response ;
       status_url ← py_get body "statusUrl" PyNone ;
       print (MsgSubmitted status_url) ;;
       io_ret status_url
     else
       print (MsgSubmitStatus (basename sbom_file_path)
                (status_code response) (text response)) ;;
       io_ret PyNone)
    (fun e =>
       if isinstance_HTTPError e then
         print (MsgSubmitHTTPError (basename sbom_file_path) e) ;;
         match e with
         | HTTPError st tx => print (MsgServerResponse st tx)
         | _ => io_ret tt
         end ;;
         io_ret PyNone
       else if isinstance_RequestException e then
         print (MsgSubmitNetworkError (basename sbom_file_path) e) ;;
         io_ret PyNone
       else if isinstance_IOError e then
         print (MsgReadError sbom_file_path e) ;;
         io_ret PyNone
       else io_raise e).

(** ** check_scan_status *)

Definition check_scan_status (status_url : pyval) (get : reply) : io bool :=
  io_try
    (response ← lift_reply get ;
     raise_for_status response ;;
     status_data ← response_json response ;
     is_error ← py_get status_data "isError" (PyBool false) ;
     if truthy is_error then
       error_message ← py_get status_data "errorMessage" (PyStr "Unknown error.") ;
       print (MsgScanFailed status_url error_message) ;;
       io_ret true
     else
       report ← py_get status_data "reportHtmlUrl" PyNone ;
       if truthy report then
         print (MsgScanCompleted status_url) ;;
         io_ret true
       else
         print (MsgStillInProgress status_url) ;;
         io_ret false)
    (fun e =>
       if isinstance_RequestException e then
         print (MsgStatusError status_url e) ;;
         io_ret false
       else io_raise e).


(** ** The state the threads share *)

(** [semaphore._value], [counter_lock] and [processed_counter[0]].  The lock
    is [None] when free; when held it remembers the index of the thread that
    took it (a [threading.Lock] does not, the holder is kept for the proofs
    only and never read by the code). *)
Record shared := {
  sem : Z;
  lock : option nat;
  counter : Z
}.

Definition set_sem (v : Z) (sh : shared) : shared :=
  {| sem := v; lock := lock sh; counter := counter sh |}.
Definition set_lock (o : option nat) (sh : shared) : shared :=
  {| sem := sem sh; lock := o; counter := counter sh |}.
Definition set_counter (v : Z) (sh : shared) : shared :=
  {| sem := sem sh; lock := lock sh; counter := v |}.

(** ** scan_worker *)

(** The three places where [scan_worker] runs [with lock: processed_counter[0] += 1]. *)
Inductive site :=
| AtParseFailure     (* lines 146-147, before [return] *)
| AtSubmitFailure    (* lines 153-154, before [return] *)
| AtFinally.         (* lines 165-167, in the [finally] block *)

(** The steps of one such block: entering [with lock], reading the cell,
    writing it back plus one, leaving the block. *)
Inductive phase := Acquire | Load | Store | Unlock.

(** Where a worker stands. *)
Inductive pc :=
| PParse
| PSubmit (app_id stage : string)
| PSleep (status_url : pyval) (i : nat)      (* [time.sleep] before check [i] *)
| PCheck (status_url : pyval) (i : nat)
| PInc (s : site) (ph : phase)
| PSnapshot                                   (* [current_count = processed_counter[0]] *)
| PRelease                                    (* [semaphore.release()] *)
| PPrint
| PDone.

(** How control reached the [finally] block. *)
Inductive exit_path :=
| ReturnedParseFailure
| ReturnedSubmitFailure
| PollingEnded
| Fault (e : exn).

(** What a worker has done so far, oldest first. *)
Inductive event :=
| EvParse
| EvSubmit
| EvSleep (seconds : Z)
| EvCheck (i : nat)
| EvLock
| EvStore (v : Z)
| EvUnlock
| EvRelease
| EvPrint (m : msg).

Record thread := {
  t_file : string;
  t_total : Z;
  t_pc : pc;
  t_tmp : Z;                        (* the value read by [+= 1] *)
  t_current_count : option Z;
  t_exit : option exit_path;
  t_hist : list event
}.

Definition new_thread (filepath : string) (total_files : Z) : thread :=
  {| t_file := filepath; t_total := total_files; t_pc := PParse; t_tmp := 0;
     t_current_count := None; t_exit := None; t_hist := [] |}.

Definition goto (p : pc) (t : thread) : thread :=
  {| t_file := t_file t; t_total := t_total t; t_pc := p; t_tmp := t_tmp t;
     t_current_count := t_current_count t; t_exit := t_exit t;
     t_hist := t_hist t |}.

Definition record (evs : list event) (t : thread) : thread :=
  {| t_file := t_file t; t_total := t_total t; t_pc := t_pc t; t_tmp := t_tmp t;
     t_current_count := t_current_count t; t_exit := t_exit t;
     t_hist := t_hist t ++ evs |}.

Definition set_tmp (v : Z) (t : thread) : thread :=
  {| t_file := t_file t; t_total := t_total t; t_pc := t_pc t; t_tmp := v;
     t_current_count := t_current_count t; t_exit := t_exit t;
     t_hist := t_hist t |}.

Definition set_current_count (v : Z) (t : thread) : thread :=
  {| t_file := t_file t; t_total := t_total t; t_pc := t_pc t; t_tmp := t_tmp t;
     t_current_count := Some v; t_exit := t_exit t; t_hist := t_hist t |}.

(** Leaving the [try] body: control goes to the [finally] block. *)
Definition leave (x : exit_path) (t : thread) : thread :=
  {| t_file := t_file t; t_total := t_total t; t_pc := PRelease; t_tmp := t_tmp t;
     t_current_count := t_current_count t; t_exit := Some x;
     t_hist := t_hist t |}.

(** What the world answers to the worker of one file: the outcome of reading
    the file, of the POST, and of the [i]-th status GET. *)
Record file_world := {
  fw_read : file_read;
  fw_post : reply;
  fw_get : nat -> reply
}.

Definition world := string -> file_world.

(** One step of the worker [me], or [None] when it is blocked on the lock or
    has finished. *)
Definition scan_worker (fw : file_world) (me : nat) (sh : shared) (t : thread)
    : option (shared * thread) :=
  match t_pc t with
  | PParse =>
      let '(out, r) := parse_filename (t_file t) in
      let t1 := record (EvParse :: map EvPrint out) t in
      match r with
      | Return (Some (app_name, stage, app_id)) =>
          if all_parts (Some (app_name, stage, app_id))
          then Some (sh, goto (PSubmit app_id stage) t1)
          else Some (sh, goto (PInc AtParseFailure Acquire) t1)
      | Return None => Some (sh, goto (PInc AtParseFailure Acquire) t1)
      | Raise e => Some (sh, leave (Fault e) t1)
      end
  | PSubmit app_id stage =>
      let '(out, r) :=
        submit_sbom_scan app_id stage (t_file t) (fw_read fw) (fw_post fw) in
      let t1 := record (EvSubmit :: map EvPrint out) t in
      match r with
      | Return status_url =>
          if truthy status_url
          then Some (sh, goto (PSleep status_url 0) t1)
          else Some (sh, goto (PInc AtSubmitFailure Acquire) t1)
      | Raise e => Some (sh, leave (Fault e) t1)
      end
  | PSleep status_url i =>
      Some (sh, goto (PCheck status_url i) (record [EvSleep STATUS_CHECK_INTERVAL] t))
  | PCheck status_url i =>
      let '(out, r) := check_scan_status status_url (fw_get fw i) in
      let t1 := record (EvCheck i :: map EvPrint out) t in
      match r with
      | Return true => Some (sh, leave PollingEnded t1)
      | Return false => Some (sh, goto (PSleep status_url (S i)) t1)
      | Raise e => Some (sh, leave (Fault e) t1)
      end
  | PInc s Acquire =>
      match lock sh with
      | None => Some (set_lock (Some me) sh, goto (PInc s Load) (record [EvLock] t))
      | Some _ => None
      end
  | PInc s Load =>
      Some (sh, goto (PInc s Store) (set_tmp (counter sh) t))
  | PInc s Store =>
      let v := t_tmp t + 1 in
      Some (set_counter v sh,
            goto (match s with AtFinally => PSnapshot | _ => PInc s Unlock end)
                 (record [EvStore v] t))
  | PSnapshot =>
      Some (sh, goto (PInc AtFinally Unlock) (set_current_count (counter sh) t))
  | PInc s Unlock =>
      let t1 := record [EvUnlock] t in
      Some (set_lock None sh,
            match s with
            | AtParseFailure => leave ReturnedParseFailure t1
            | AtSubmitFailure => leave ReturnedSubmitFailure t1
            | AtFinally => goto PPrint t1
            end)
  | PRelease =>
      Some (set_sem (sem sh + 1) sh,
            goto (PInc AtFinally Acquire) (record [EvRelease] t))
  | PPrint =>
      let current_count := default 0 (t_current_count t) in
      Some (sh, goto PDone
                  (record [EvPrint (MsgWorkerFinished (basename (t_file t)) (sem sh));
                           EvPrint (MsgProcessed current_count (t_total t))] t))
  | PDone => None
  end.

(** ** main *)

(** Where the main thread stands: in the launching loop before
    [semaphore.acquire()] (with the files still to launch), between the
    acquire and [thread.start()], in the joining loop, or finished. *)
Inductive main_pc :=
| MAcquire (rest : list string)
| MStart (sbom_file : string) (rest : list string)
| MJoin (i : nat)
| MDone
| MExit (code : Z).

Record state := {
  st_shared : shared;
  st_main : main_pc;
  st_total : Z;
  st_threads : list thread;
  st_out : list msg
}.

Definition is_done (t : thread) : bool :=
  match t_pc t with PDone => true | _ => false end.

(** The program from the point where [glob] has returned [sbom_files]. *)
Definition init (sbom_files : list string) : state :=
  match sbom_files with
  | [] =>
      {| st_shared := {| sem := MAX_CONCURRENT_SCANS; lock := None; counter := 0 |};
         st_main := MExit 0; st_total := 0; st_threads := []; st_out := [MsgNoFiles] |}
  | _ =>
      let total_files := Z.of_nat (length sbom_files) in
      {| st_shared := {| sem := MAX_CONCURRENT_SCANS; lock := None; counter := 0 |};
         st_main := MAcquire sbom_files; st_total := total_files;
         st_threads := []; st_out := [MsgFound total_files] |}
  end.

(** One step of the main thread, or [None] when it is blocked (on the
    semaphore or on a join) or has finished. *)
Definition main (s : state) : option state :=
  match st_main s with
  | MAcquire [] =>
      Some {| st_shared := st_shared s; st_main := MJoin 0; st_total := st_total s;
              st_threads := st_threads s; st_out := st_out s |}
  | MAcquire (sbom_file :: rest) =>
      if 0 <? sem (st_shared s) then
        Some {| st_shared := set_sem (sem (st_shared s) - 1) (st_shared s);
                st_main := MStart sbom_file rest; st_total := st_total s;
                st_threads := st_threads s;
                st_out := st_out s ++ [MsgAcquired (basename sbom_file)] |}
      else None
  | MStart sbom_file rest =>
      Some {| st_shared := st_shared s; st_main := MAcquire rest;
              st_total := st_total s;
              st_threads := st_threads s ++ [new_thread sbom_file (st_total s)];
              st_out := st_out s |}
  | MJoin i =>
      match st_threads s !! i with
      | Some t =>
          if is_done t then
            Some {| st_shared := st_shared s; st_main := MJoin (S i);
                    st_total := st_total s; st_threads := st_threads s;
                    st_out := st_out s |}
          else None
      | None =>
          Some {| st_shared := st_shared s; st_main := MDone; st_total := st_total s;
                  st_threads := st_threads s;
                  st_out := st_out s ++ [MsgAllProcessed (st_total s)] |}
      end
  | MDone => None
  | MExit _ => None
  end.

(** ** The interleaving *)

Inductive who :=
| Main
| Worker (i : nat).

(** One step of the chosen thread. *)
Definition step (w : world) (x : who) (s : state) : option state :=
  match x with
  | Main => main s
  | Worker i =>
      match st_threads s !! i with
      | Some t =>
          match scan_worker (w (t_file t)) i (st_shared s) t with
          | Some (sh', t') =>
              Some {| st_shared := sh'; st_main := st_main s; st_total := st_total s;
                      st_threads := <[i := t']> (st_threads s); st_out := st_out s |}
          | None => None
          end
      | None => None
      end
  end.

(** Running a schedule: a thread that cannot move when chosen is skipped. *)
Fixpoint run (w : world) (sched : list who) (s : state) : state :=
  match sched with
  | [] => s
  | x :: sched' =>
      match step w x s with
      | Some s' => run w sched' s'
      | None => run w sched' s
      end
  end.

(** The states a run of the program on [sbom_files] passes through. *)
Inductive reachable (w : world) (sbom_files : list string) : state -> Prop :=
| reachable_init : reachable w sbom_files (init sbom_files)
| reachable_step x s s' :
    reachable w sbom_files s -> step w x s = Some s' -> reachable w sbom_files s'.

(** The run is over: the main thread has joined every worker. *)
Definition finished (s : state) : bool :=
  match st_main s with MDone => true | _ => false end.

(** ** One worker on its own *)

(** [n] steps of a worker that no other thread disturbs: a call of
    [scan_worker] taken alone.  A blocked or finished worker stays put. *)
Fixpoint solo (fw : file_world) (me : nat) (n : nat) (sh : shared) (t : thread)
    : shared * thread :=
  match n with
  | O => (sh, t)
  | S n' =>
      match scan_worker fw me sh t with
      | Some (sh', t') => solo fw me n' sh' t'
      | None => (sh, t)
      end
  end.

(** The worker is in the polling loop of lines 158-161. *)
Definition polling (t : thread) : bool :=
  match t_pc t with
  | PSleep _ _ | PCheck _ _ => true
  | _ => false
  end.

(** The [i]-th status check ends the polling loop: it returns [True] or
    raises past [check_scan_status]. *)
Definition ends_polling (fw : file_world) (status_url : pyval) (i : nat) : bool :=
  match snd (check_scan_status status_url (fw_get fw i)) with
  | Return false => false
  | Return true => true
  | Raise _ => true
  end.


(** The events of one turn of the loop: the sleep, check [i], what it prints. *)
Definition poll_round (fw : file_world) (status_url : pyval) (i : nat) : list event :=
  EvSleep STATUS_CHECK_INTERVAL :: EvCheck i
    :: map EvPrint (fst (check_scan_status status_url (fw_get fw i))).

(** The events of turns [i], [i+1], ..., [i+n-1]. *)
Fixpoint poll_rounds (fw : file_world) (status_url : pyval) (i n : nat) : list event :=
  match n with
  | O => []
  | S n' => poll_round fw status_url i ++ poll_rounds fw status_url (S i) n'
  end.

Definition is_check (e : event) : bool :=
  match e with EvCheck _ => true | _ => false end.
Definition is_sleep (e : event) : bool :=
  match e with EvSleep _ => true | _ => false end.
Definition is_store (e : event) : bool :=
  match e with EvStore _ => true | _ => false end.
Definition is_release (e : event) : bool :=
  match e with EvRelease => true | _ => false end.

(** How many events of a kind a history holds. *)
Definition count (f : event -> bool) (h : list event) : nat :=
  length (List.filter f h).

(** The events of the [finally] block, when the counter cell held [c] on
    entry to its [with lock]. *)
Definition finally_events (filepath : string) (total_files slots c : Z) : list event :=
  [EvRelease; EvLock; EvStore (c + 1); EvUnlock;
   EvPrint (MsgWorkerFinished (basename filepath) slots);
   EvPrint (MsgProcessed (c + 1) total_files)].

(** ** Measures over the pool of threads *)

(** The worker still holds the gate slot the main thread acquired for it:
    it has not run [semaphore.release()] yet. *)
Definition holds_slot (t : thread) : bool :=
  match t_pc t with
  | PParse | PSubmit _ _ | PSleep _ _ | PCheck _ _ | PRelease => true
  | PInc AtParseFailure _ | PInc AtSubmitFailure _ => true
  | PInc AtFinally _ | PSnapshot | PPrint | PDone => false
  end.

(** The worker is inside a [with lock] block. *)
Definition in_critical_section (t : thread) : bool :=
  match t_pc t with
  | PInc _ Load | PInc _ Store | PInc _ Unlock | PSnapshot => true
  | _ => false
  end.

(** Sum of a measure over the threads. *)
Fixpoint total (g : thread -> Z) (ts : list thread) : Z :=
  match ts with
  | [] => 0
  | t :: ts' => g t + total g ts'
  end.

(** Number of lifecycles holding a gate slot: the workers that have not
    released theirs, and the one the main thread has acquired a slot for but
    not started yet. *)
Definition holders (s : state) : Z :=
  (match st_main s with MStart _ _ => 1 | _ => 0 end)
  + total (fun t => Z.b2z (holds_slot t)) (st_threads s).

(** Number of completed [processed_counter[0] += 1] of a worker. *)
Definition stores (t : thread) : Z := Z.of_nat (count is_store (t_hist t)).

(** Number of [semaphore.release()] a worker has run. *)
Definition releases (t : thread) : Z := Z.of_nat (count is_release (t_hist t)).

(** Number of [semaphore.acquire()] the main thread has come back from: one
    for each worker started, and one more between an acquire and the
    [thread.start()] that follows it. *)
Definition acquired (s : state) : Z :=
  Z.of_nat (length (st_threads s))
  + (match st_main s with MStart _ _ => 1 | _ => 0 end).

(** Files the main thread has still to hand to a worker. *)
Definition pending (m : main_pc) : list string :=
  match m with
  | MAcquire rest => rest
  | MStart f rest => f :: rest
  | _ => []
  end.

(** The events of the [finally] block a worker at [p] has behind it. *)
Definition finally_so_far (p : pc) (v : Z) (m1 m2 : msg) : list event :=
  match p with
  | PInc AtFinally Acquire => [EvRelease]
  | PInc AtFinally Load | PInc AtFinally Store => [EvRelease; EvLock]
  | PSnapshot | PInc AtFinally Unlock => [EvRelease; EvLock; EvStore v]
  | PPrint => [EvRelease; EvLock; EvStore v; EvUnlock]
  | PDone => [EvRelease; EvLock; EvStore v; EvUnlock; EvPrint m1; EvPrint m2]
  | _ => []
  end.

(** The worker left the [try] body by one of the two early [return]s. *)
Definition returned_early (t : thread) : bool :=
  match t_exit t with
  | Some ReturnedParseFailure | Some ReturnedSubmitFailure => true
  | _ => false
  end.

(** Number of increments a worker at this point has made in its [try] body. *)
Definition body_stores (t : thread) : nat :=
  match t_pc t with
  | PParse | PSubmit _ _ | PSleep _ _ | PCheck _ _ => 0
  | PInc AtParseFailure Unlock | PInc AtSubmitFailure Unlock => 1
  | PInc AtParseFailure _ | PInc AtSubmitFailure _ => 0
  | _ => if returned_early t then 1 else 0
  end.

(** What holds of a worker at every point, whatever the other threads do:
    its history is a [try] body without release, followed by the part of the
    [finally] block it has run. *)
Definition local_ok (t : thread) : Prop :=
  exists body v m1 m2,
    t_hist t = body ++ finally_so_far (t_pc t) v m1 m2
    /\ count is_release body = 0%nat
    /\ count is_store body = body_stores t.

(** The main thread has joined worker [i]. *)
Definition joined (m : main_pc) (i : nat) : bool :=
  match m with
  | MJoin k => (i <? k)%nat
  | MDone => true
  | _ => false
  end.

(** What holds in every state of a run on [sbom_files]. *)
Record invariant (sbom_files : list string) (s : state) : Prop := {
  inv_sem : 0 <= sem (st_shared s);
  inv_gate : sem (st_shared s) + holders s = MAX_CONCURRENT_SCANS;
  inv_lock : forall i t,
    st_threads s !! i = Some t -> in_critical_section t = true ->
    lock (st_shared s) = Some i;
  inv_tmp : forall i t st,
    st_threads s !! i = Some t -> t_pc t = PInc st Store ->
    t_tmp t = counter (st_shared s);
  inv_counter : counter (st_shared s) = total stores (st_threads s);
  inv_snap : forall i t c,
    st_threads s !! i = Some t -> t_current_count t = Some c ->
    c <= counter (st_shared s)
    /\ forall j tj, st_threads s !! j = Some tj -> t_pc tj = PSnapshot ->
                    c < counter (st_shared s);
  inv_distinct : forall i j ti tj c,
    st_threads s !! i = Some ti -> st_threads s !! j = Some tj ->
    t_current_count ti = Some c -> t_current_count tj = Some c -> i = j;
  inv_files : map t_file (st_threads s) ++ pending (st_main s) = sbom_files;
  inv_join : forall i t,
    st_threads s !! i = Some t -> joined (st_main s) i = true -> is_done t = true;
  inv_local : forall i t, st_threads s !! i = Some t -> local_ok t
}.

(** Number of workers that left by an early [return]. *)
Definition early_returns (s : state) : Z :=
  total (fun t => Z.b2z (returned_early t)) (st_threads s).

(** A schedule that lets the main thread and workers [0 .. n-1] move in
    turn, [rounds] times. *)
Definition one_round (n : nat) : list who := Main :: map Worker (seq 0 n).

Fixpoint fair (n rounds : nat) : list who :=
  match rounds with
  | O => []
  | S r => one_round n ++ fair n r
  end.

(** ** Bookkeeping for the proofs about one worker *)

(** Move to [p] after recording [evs]. *)
Definition advance (p : pc) (evs : list event) (t : thread) : thread :=
  goto p (record evs t).

(** How the polling loop is left at check [i]. *)
Definition poll_exit (fw : file_world) (status_url : pyval) (i : nat) : exit_path :=
  match snd (check_scan_status status_url (fw_get fw i)) with
  | Raise e => Fault e
  | _ => PollingEnded
  end.

Definition site_exit (s : site) : exit_path :=
  match s with
  | AtParseFailure => ReturnedParseFailure
  | _ => ReturnedSubmitFailure
  end.

(** The worker after an early [with lock: ... += 1; return] run from [sh]. *)
Definition after_early_return (s : site) (sh : shared) (t : thread) : thread :=
  {| t_file := t_file t; t_total := t_total t; t_pc := PRelease;
     t_tmp := counter sh; t_current_count := t_current_count t;
     t_exit := Some (site_exit s);
     t_hist := t_hist t ++ [EvLock; EvStore (counter sh + 1); EvUnlock] |}.

(** The worker once its [finally] block has run from [sh]. *)
Definition after_finally (sh : shared) (t : thread) : thread :=
  {| t_file := t_file t; t_total := t_total t; t_pc := PDone;
     t_tmp := counter sh; t_current_count := Some (counter sh + 1);
     t_exit := t_exit t;
     t_hist := t_hist t
               ++ finally_events (t_file t) (t_total t) (sem sh + 1) (counter sh) |}.

(** The events of [k] turns of the loop whose checks all print "still in
    progress". *)
Definition in_progress_rounds (status_url : pyval) (k : nat) : list event :=
  flat_map (fun i => [EvSleep STATUS_CHECK_INTERVAL; EvCheck i;
                      EvPrint (MsgStillInProgress status_url)])
           (seq 0 k).

(** ** Sample servers and inputs *)

Definition accepted : response :=
  {| status_code := 202; text := "{...}";
     json := Some (PyDict [("statusUrl",
                            PyStr "api/v2/scan/applications/a1/status/s1")]);
     json_error := JSONDecodeError "Expecting value" |}.

Definition accepted_without_url : response :=
  {| status_code := 202; text := "{}"; json := Some (PyDict []);
     json_error := JSONDecodeError "Expecting value" |}.

Definition accepted_with_array : response :=
  {| status_code := 202; text := "[]"; json := Some (PyList []);
     json_error := JSONDecodeError "Expecting value" |}.

Definition server_error : response :=
  {| status_code := 500; text := "Internal Server Error"; json := None;
     json_error := JSONDecodeError "Expecting value" |}.

Definition in_progress : response :=
  {| status_code := 200; text := "{}"; json := Some (PyDict []);
     json_error := JSONDecodeError "Expecting value" |}.

Definition report_ready : response :=
  {| status_code := 200; text := "{...}";
     json := Some (PyDict [("reportHtmlUrl", PyStr "ui/links/report")]);
     json_error := JSONDecodeError "Expecting value" |}.

Definition status_with_array : response :=
  {| status_code := 200; text := "[]"; json := Some (PyList []);
     json_error := JSONDecodeError "Expecting value" |}.

(** The scan is accepted and completes at status check [k]. *)
Definition completes_after (k : nat) : file_world :=
  {| fw_read := ReadOk "<bom/>"; fw_post := Responds accepted;
     fw_get := fun i => if (i <? k)%nat then Responds in_progress
                        else Responds report_ready |}.

(** The submission is refused with a 500. *)
Definition refuses : file_world :=
  {| fw_read := ReadOk "<bom/>"; fw_post := Responds server_error;
     fw_get := fun _ => Responds in_progress |}.

(** The server accepts with a payload that has no [statusUrl]. *)
Definition accepts_without_url : file_world :=
  {| fw_read := ReadOk "<bom/>"; fw_post := Responds accepted_without_url;
     fw_get := fun _ => Responds in_progress |}.



(** The scan is accepted; the status endpoint answers with a JSON array. *)
Definition answers_with_array : file_world :=
  {| fw_read := ReadOk "<bom/>"; fw_post := Responds accepted;
     fw_get := fun _ => Responds status_with_array |}.

Definition status_url_1 : pyval := PyStr "api/v2/scan/applications/a1/status/s1".

Definition good_file : string := "/sboms/web_shop_build_a1.xml".
Definition bad_file : string := "/sboms/report.xml".

Definition free : shared :=
  {| sem := MAX_CONCURRENT_SCANS; lock := None; counter := 0 |}.

(** Twelve well-named files. *)
Definition twelve_files : list string :=
  map (fun i => String.append "/sboms/app_build_" (String (ascii_of_nat (65 + i)) ".xml"))
      (seq 0 12).

(** A server that accepts and completes some files, answers one POST with a
    JSON array and refuses another. *)
Definition mixed_world : world :=
  fun f =>
    if String.eqb f "/sboms/api_build_b2.xml" then
      {| fw_read := ReadOk "<bom/>"; fw_post := Responds accepted_with_array;
         fw_get := fun _ => Responds in_progress |}
    else if String.eqb f "/sboms/db_release_c3.xml" then refuses
    else completes_after 1.

Definition mixed_files : list string :=
  [good_file; bad_file; "/sboms/api_build_b2.xml"; "/sboms/db_release_c3.xml"].

(** A worker about to sleep before its first status check. *)
Definition polling_thread : thread :=
  advance (PSleep status_url_1 0) [] (new_thread good_file 1).

(** ** Further measures and samples *)

(** [c in s] *)
Fixpoint contains (c : ascii) (s : string) : bool :=
  match s with
  | EmptyString => false
  | String a r => Ascii.eqb a c || contains c r
  end.

(** [s.count(c)] *)
Fixpoint occurrences (c : ascii) (s : string) : nat :=
  match s with
  | EmptyString => O
  | String a r => ((if Ascii.eqb a c then 1 else 0) + occurrences c r)%nat
  end.

(** The name [parse_filename] splits: the base name without its extension. *)
Definition name_without_ext (filepath : string) : string :=
  fst (splitext (basename filepath)).

(** The statuses for which [raise_for_status] raises. *)
Definition http_error (status : Z) : bool := (400 <=? status) && (status <? 600).

Definition is_dict (v : pyval) : bool :=
  match v with PyDict _ => true | _ => false end.

Definition is_submitting (m : msg) : bool :=
  match m with MsgSubmitting _ _ _ => true | _ => false end.

Definition is_submit (e : event) : bool :=
  match e with EvSubmit => true | _ => false end.

(** The worker is about to call [check_scan_status]. *)
Definition at_check (t : thread) : bool :=
  match t_pc t with PCheck _ _ => true | _ => false end.

(** The worker has not called [submit_sbom_scan] yet. *)
Definition before_submit (t : thread) : bool :=
  match t_pc t with PParse | PSubmit _ _ => true | _ => false end.

(** The lock is held by a worker that is inside a [with lock] block. *)
Definition lock_held (s : state) : Prop :=
  forall i, lock (st_shared s) = Some i ->
    exists t, st_threads s !! i = Some t /\ in_critical_section t = true.

(** The main thread has nothing left to do. *)
Definition main_over (s : state) : bool :=
  match st_main s with
  | MDone | MExit _ => true
  | _ => false
  end.

Definition created : response :=
  {| status_code := 201; text := "Created"; json := None;
     json_error := JSONDecodeError "Expecting value" |}.

(** A 200 whose body holds an integer literal beyond the digit limit of
    [int]: [response.json()] raises [ValueError]. *)
Definition huge_integer_status : response :=
  {| status_code := 200; text := "{...}"; json := None;
     json_error := ValueError "Exceeds the limit for integer string conversion" |}.

Definition not_found : response :=
  {| status_code := 404; text := "Not Found"; json := None;
     json_error := JSONDecodeError "Expecting value" |}.

Definition failed_with_report : response :=
  {| status_code := 200; text := "{...}";
     json := Some (PyDict [("isError", PyBool true);
                           ("reportHtmlUrl", PyStr "ui/links/report")]);
     json_error := JSONDecodeError "Expecting value" |}.

(** The scan is accepted; the status endpoint answers 404 for ever. *)
Definition status_not_found : file_world :=
  {| fw_read := ReadOk "<bom/>"; fw_post := Responds accepted;
     fw_get := fun _ => Responds not_found |}.

(** The POST is answered with 202 and a JSON array. *)
Definition accepts_with_array : file_world :=
  {| fw_read := ReadOk "<bom/>"; fw_post := Responds accepted_with_array;
     fw_get := fun _ => Responds in_progress |}.

(** A name that splits in three parts, the first one empty. *)
Definition nameless_file : string := "/sboms/_build_a1.xml".

Definition completing_world : world := fun _ => completes_after 1.

Definition two_files : list string := [bad_file; good_file].

(** * Proofs *)

(** ** Tactics *)

(** Records built by the setters, evaluated innermost first. *)
Ltac normalize_thread :=
  cbv [goto record leave advance set_tmp set_current_count
       t_file t_total t_pc t_tmp t_current_count t_exit t_hist].

(** One level of setters and projections. *)
Ltac step_simpl :=
  cbn [goto record leave set_tmp set_current_count
       t_file t_total t_pc t_tmp t_current_count t_exit t_hist
       set_lock set_sem set_counter sem lock counter Z.b2z].

(** All the ways a step [H : scan_worker fw me sh t = Some (sh', t')] can
    have been taken. *)
Ltac worker_cases H :=
  unfold scan_worker in H;
  match type of H with context [t_pc ?t] => destruct (t_pc t) eqn:Hpc end;
  repeat match type of H with
    | context [parse_filename ?f] =>
        destruct (parse_filename f) as [? [[[[? ?] ?]|]|?]]
    | context [all_parts ?x] => destruct (all_parts x)
    | context [submit_sbom_scan ?a ?b ?c ?d ?e] =>
        destruct (submit_sbom_scan a b c d e) as [? [?|?]]
    | context [truthy ?v] => destruct (truthy v)
    | context [check_scan_status ?u ?g] =>
        destruct (check_scan_status u g) as [? [[|]|?]]
    | context [match ?ph with Acquire => _ | _ => _ end] => destruct ph
    | context [match lock ?sh with _ => _ end] => destruct (lock sh) eqn:Hlock
    | context [match ?s with AtFinally => _ | _ => _ end] => destruct s
    end;
  inversion H; subst; clear H.

(** ** Counting events *)

Lemma count_app f h1 h2 : count f (h1 ++ h2) = (count f h1 + count f h2)%nat.
Proof. unfold count. now rewrite List.filter_app, length_app. Qed.

Lemma count_cons f e h :
  count f (e :: h) = ((if f e then 1 else 0) + count f h)%nat.
Proof. unfold count. simpl. now destruct (f e). Qed.

Lemma count_map_print f out :
  f = is_check \/ f = is_sleep \/ f = is_store \/ f = is_release ->
  count f (map EvPrint out) = 0%nat.
Proof.
  intros Hf. induction out as [|m out IH]; [reflexivity|].
  rewrite map_cons, count_cons, IH.
  destruct Hf as [-> | [-> | [-> | ->]]]; reflexivity.
Qed.

Lemma count_finally_events f filepath total_files slots c :
  f = is_check \/ f = is_sleep ->
  count f (finally_events filepath total_files slots c) = 0%nat.
Proof. intros [-> | ->]; reflexivity. Qed.

(** ** The two calls to the server *)

Lemma dict_get_absent d key default :
  (forall v, ~ In (key, v) d) -> dict_get d key default = default.
Proof.
  induction d as [|[k v] d IH]; intros H; simpl; [reflexivity|].
  destruct (String.eqb_spec k key) as [->|Hne].
  - exfalso. apply (H v). now left.
  - apply IH. intros v' Hin. apply (H v'). now right.
Qed.


(** What [submit_sbom_scan] lets through is none of the classes it catches. *)
Lemma submit_propagates_uncaught app_id stage path file post out e :
  submit_sbom_scan app_id stage path file post = (out, Raise e) ->
  isinstance_IOError e = false.
Proof.
  unfold submit_sbom_scan.
  match goal with |- context [io_try ?c _] => destruct c as [o [a|e0]] end;
    simpl; [discriminate|].
  destruct e0; simpl; intros H; inversion H; reflexivity.
Qed.

(** X19: for each transport outcome that is not a success -- an
    unreadable input file, a connection failure or timeout raised by the
    POST, a 4xx or 5xx status -- [submit_sbom_scan] prints a diagnostic
    (with the server's body text for an HTTP error), returns [None] and
    raises nothing; a value other than [None] is returned only for a 202
    response, and is the [statusUrl] of its JSON object; and whatever it
    does raise is not of a class it catches. *)
Theorem submit_rejects_transport_failures app_id stage path file post :
  (forall d, file = ReadRaises (OSError d) ->
     submit_sbom_scan app_id stage path file post
     = ([MsgReadError path (OSError d)], Return PyNone)) /\
  (forall content e, file = ReadOk content -> post = Raises e ->
     isinstance_RequestException e = true ->
     snd (submit_sbom_scan app_id stage path file post) = Return PyNone
     /\ (In (MsgSubmitHTTPError (basename path) e)
            (fst (submit_sbom_scan app_id stage path file post))
         \/ In (MsgSubmitNetworkError (basename path) e)
               (fst (submit_sbom_scan app_id stage path file post)))) /\
  (forall content r, file = ReadOk content -> post = Responds r ->
     400 <= status_code r < 600 ->
     submit_sbom_scan app_id stage path file post
     = ([MsgSubmitting app_id stage (basename path);
         MsgSubmitHTTPError (basename path) (HTTPError (status_code r) (text r));
         MsgServerResponse (status_code r) (text r)],
        Return PyNone)) /\
  (forall out v, submit_sbom_scan app_id stage path file post = (out, Return v) ->
     v <> PyNone ->
     exists content r d,
       file = ReadOk content /\ post = Responds r /\ status_code r = 202
       /\ json r = Some (PyDict d) /\ v = dict_get d "statusUrl" PyNone) /\
  (forall out e, submit_sbom_scan app_id stage path file post = (out, Raise e) ->
     isinstance_IOError e = false).
Proof.
  split; [|split; [|split; [|split]]].
  - intros d ->. reflexivity.
  - intros content e -> -> He.
    destruct e; try discriminate; simpl; auto.
  - intros content r -> -> [Hlo Hhi].
    unfold submit_sbom_scan, raise_for_status; simpl.
    apply Z.leb_le in Hlo. apply Z.ltb_lt in Hhi. now rewrite Hlo, Hhi.
  - intros out v H Hv.
    destruct file as [content|e].
    2:{ unfold submit_sbom_scan in H; simpl in H.
        destruct e; simpl in H; inversion H; congruence. }
    destruct post as [e|r].
    { unfold submit_sbom_scan in H; simpl in H.
      destruct e; simpl in H; inversion H; congruence. }
    exists content, r.
    unfold submit_sbom_scan, raise_for_status in H; simpl in H.
    destruct ((400 <=? status_code r) && (status_code r <? 600)); simpl in H;
      [inversion H; congruence|].
    destruct (Z.eqb_spec (status_code r) 202) as [E|E]; simpl in H;
      [|inversion H; congruence].
    unfold response_json in H.
    destruct (json r) as [[| | | | |d]|] eqn:Ej;
      [..|destruct (json_error r)]; simpl in H; inversion H; try congruence.
    exists d. auto.
  - intros out e. apply submit_propagates_uncaught.
Qed.

(** ** One worker, undisturbed *)

Section Worker.

Variable fw : file_world.
Variable me : nat.

Lemma solo_stuck n sh t :
  scan_worker fw me sh t = None -> solo fw me n sh t = (sh, t).
Proof. intros H. destruct n; simpl; [reflexivity | now rewrite H]. Qed.

Lemma solo_add n m sh t :
  solo fw me (n + m) sh t
  = solo fw me m (fst (solo fw me n sh t)) (snd (solo fw me n sh t)).
Proof.
  revert sh t. induction n as [|n IH]; intros sh t; simpl; [reflexivity|].
  destruct (scan_worker fw me sh t) as [[sh' t']|] eqn:E.
  - apply IH.
  - simpl. symmetry. now apply solo_stuck.
Qed.

Lemma solo_step n sh t sh' t' :
  scan_worker fw me sh t = Some (sh', t') ->
  solo fw me (S n) sh t = solo fw me n sh' t'.
Proof. intros H. simpl. now rewrite H. Qed.

Lemma solo_one sh t sh' t' :
  scan_worker fw me sh t = Some (sh', t') -> solo fw me 1 sh t = (sh', t').
Proof. intros H. simpl. now rewrite H. Qed.

Lemma solo_done n sh t : t_pc t = PDone -> solo fw me n sh t = (sh, t).
Proof. intros H. apply solo_stuck. unfold scan_worker. now rewrite H. Qed.

Lemma advance_nil t : advance (t_pc t) [] t = t.
Proof. destruct t; unfold advance, goto, record; simpl. now rewrite app_nil_r. Qed.

Lemma advance_advance p q e1 e2 t :
  advance q e2 (advance p e1 t) = advance q (e1 ++ e2) t.
Proof. unfold advance, goto, record; simpl. now rewrite app_assoc. Qed.

(** *** Single steps *)

Lemma step_parse_failure sh t out parts :
  t_pc t = PParse -> parse_filename (t_file t) = (out, Return parts) ->
  all_parts parts = false ->
  scan_worker fw me sh t
  = Some (sh, advance (PInc AtParseFailure Acquire) (EvParse :: map EvPrint out) t).
Proof.
  intros Hpc Hp Hall. unfold scan_worker. rewrite Hpc, Hp.
  destruct parts as [[[a s] i]|]; [now rewrite Hall | reflexivity].
Qed.

Lemma step_parse_ok sh t out app_name stage app_id :
  t_pc t = PParse ->
  parse_filename (t_file t) = (out, Return (Some (app_name, stage, app_id))) ->
  all_parts (Some (app_name, stage, app_id)) = true ->
  scan_worker fw me sh t
  = Some (sh, advance (PSubmit app_id stage) (EvParse :: map EvPrint out) t).
Proof.
  intros Hpc Hp Hall. unfold scan_worker. rewrite Hpc, Hp. now rewrite Hall.
Qed.

Lemma step_submit sh t app_id stage :
  t_pc t = PSubmit app_id stage ->
  scan_worker fw me sh t
  = let c := submit_sbom_scan app_id stage (t_file t) (fw_read fw) (fw_post fw) in
    let t1 := record (EvSubmit :: map EvPrint (fst c)) t in
    Some (sh, match snd c with
              | Return status_url =>
                  if truthy status_url then goto (PSleep status_url 0) t1
                  else goto (PInc AtSubmitFailure Acquire) t1
              | Raise e => leave (Fault e) t1
              end).
Proof.
  intros Hpc. unfold scan_worker. rewrite Hpc.
  destruct (submit_sbom_scan _ _ _ _ _) as [out [v|e]]; simpl; [|reflexivity].
  now destruct (truthy v).
Qed.

Lemma step_sleep sh t url i :
  t_pc t = PSleep url i ->
  scan_worker fw me sh t
  = Some (sh, advance (PCheck url i) [EvSleep STATUS_CHECK_INTERVAL] t).
Proof. intros Hpc. unfold scan_worker. now rewrite Hpc. Qed.

Lemma step_check sh t url i :
  t_pc t = PCheck url i ->
  scan_worker fw me sh t
  = let c := check_scan_status url (fw_get fw i) in
    let t1 := record (EvCheck i :: map EvPrint (fst c)) t in
    Some (sh, match snd c with
              | Return true => leave PollingEnded t1
              | Return false => goto (PSleep url (S i)) t1
              | Raise e => leave (Fault e) t1
              end).
Proof.
  intros Hpc. unfold scan_worker. rewrite Hpc.
  destruct (check_scan_status url (fw_get fw i)) as [out [[|]|e]]; reflexivity.
Qed.

(** *** The polling loop *)

Lemma poll_turn_continues sh t url i :
  t_pc t = PSleep url i -> ends_polling fw url i = false ->
  solo fw me 2 sh t = (sh, advance (PSleep url (S i)) (poll_round fw url i) t).
Proof.
  intros Hpc Hend. unfold ends_polling in Hend.
  rewrite (solo_step _ _ _ _ _ (step_sleep sh t url i Hpc)).
  erewrite solo_step by (apply step_check; reflexivity).
  simpl. unfold poll_round.
  destruct (snd (check_scan_status url (fw_get fw i))) as [[|]|e]; try discriminate.
  unfold advance, goto, record; simpl. now rewrite <- app_assoc.
Qed.

Lemma poll_turns_continue sh url n : forall i t,
  t_pc t = PSleep url i ->
  (forall j, (i <= j < i + n)%nat -> ends_polling fw url j = false) ->
  solo fw me (2 * n) sh t
  = (sh, advance (PSleep url (i + n)) (poll_rounds fw url i n) t).
Proof.
  induction n as [|n IH]; intros i t Hpc Hno.
  - simpl. rewrite Nat.add_0_r, <- Hpc. now rewrite advance_nil.
  - replace (2 * S n)%nat with (2 + 2 * n)%nat by lia.
    rewrite solo_add, (poll_turn_continues sh t url i Hpc) by (apply Hno; lia).
    cbn [fst snd].
    rewrite (IH (S i)); [| reflexivity | intros j Hj; apply Hno; lia].
    rewrite advance_advance. simpl poll_rounds.
    now replace (S i + n)%nat with (i + S n)%nat by lia.
Qed.

Lemma poll_turn_ends sh t url i :
  t_pc t = PSleep url i -> ends_polling fw url i = true ->
  solo fw me 2 sh t
  = (sh, leave (poll_exit fw url i) (record (poll_round fw url i) t)).
Proof.
  intros Hpc Hend. unfold ends_polling in Hend. unfold poll_exit.
  rewrite (solo_step _ _ _ _ _ (step_sleep sh t url i Hpc)).
  erewrite solo_step by (apply step_check; reflexivity).
  simpl. unfold poll_round.
  destruct (snd (check_scan_status url (fw_get fw i))) as [[|]|e]; try discriminate;
    unfold leave, record; simpl; now rewrite <- app_assoc.
Qed.

Lemma poll_rounds_snoc url k : forall i,
  poll_rounds fw url i (S k)
  = poll_rounds fw url i k ++ poll_round fw url (i + k).
Proof.
  induction k as [|k IH]; intros i.
  - simpl. now rewrite app_nil_r, Nat.add_0_r.
  - change (poll_rounds fw url i (S (S k)))
      with (poll_round fw url i ++ poll_rounds fw url (S i) (S k)).
    rewrite (IH (S i)).
    change (poll_rounds fw url i (S k))
      with (poll_round fw url i ++ poll_rounds fw url (S i) k).
    rewrite <- app_assoc.
    now replace (S i + k)%nat with (i + S k)%nat by lia.
Qed.

Lemma polling_phase sh t url k :
  t_pc t = PSleep url 0 ->
  (forall j, (j < k)%nat -> ends_polling fw url j = false) ->
  ends_polling fw url k = true ->
  solo fw me (2 * k + 2) sh t
  = (sh, leave (poll_exit fw url k) (record (poll_rounds fw url 0 (S k)) t)).
Proof.
  intros Hpc Hno Hend.
  rewrite solo_add, (poll_turns_continue sh url k 0 t Hpc) by (intros; apply Hno; lia).
  cbn [fst snd].
  rewrite (poll_turn_ends sh _ url k) by assumption || reflexivity.
  rewrite poll_rounds_snoc.
  unfold leave, record, advance, goto; simpl. now rewrite <- app_assoc.
Qed.

(** While no check ends the loop the worker is in it, whatever the number of
    steps. *)
Lemma polling_forever sh url t :
  t_pc t = PSleep url 0 ->
  forall n, (forall j, (2 * j + 2 <= n)%nat -> ends_polling fw url j = false) ->
  polling (snd (solo fw me n sh t)) = true.
Proof.
  intros Hpc n Hno.
  destruct (Nat.Even_or_Odd n) as [[m ->]|[m ->]].
  - rewrite (poll_turns_continue sh url m 0 t Hpc) by (intros; apply Hno; lia).
    reflexivity.
  - rewrite solo_add.
    rewrite (poll_turns_continue sh url m 0 t Hpc) by (intros; apply Hno; lia).
    cbn [fst snd].
    erewrite solo_step by (apply step_sleep; reflexivity). reflexivity.
Qed.

(** Below [n], either some check is the first to end the loop or none does. *)
Lemma first_ending url n :
  (exists k, (k < n)%nat /\ ends_polling fw url k = true
             /\ forall j, (j < k)%nat -> ends_polling fw url j = false)
  \/ (forall j, (j < n)%nat -> ends_polling fw url j = false).
Proof.
  induction n as [|n [(k & Hk & He & Hf)|Hnone]].
  - right. intros j Hj. lia.
  - left. exists k. repeat split; auto.
  - destruct (ends_polling fw url n) eqn:E.
    + left. exists n. repeat split; auto.
    + right. intros j Hj. destruct (Nat.eq_dec j n) as [->|Hne]; [assumption|].
      apply Hnone. lia.
Qed.

Lemma count_poll_rounds url n : forall i,
  count is_check (poll_rounds fw url i n) = n /\
  count is_sleep (poll_rounds fw url i n) = n.
Proof.
  induction n as [|n IH]; intros i; [split; reflexivity|].
  change (poll_rounds fw url i (S n))
    with (poll_round fw url i ++ poll_rounds fw url (S i) n).
  rewrite !count_app. destruct (IH (S i)) as [-> ->].
  unfold poll_round. rewrite !count_cons, !count_map_print by auto.
  split; reflexivity.
Qed.

Lemma poll_rounds_in_progress url k : forall i,
  (forall j, (i <= j < i + k)%nat ->
     check_scan_status url (fw_get fw j) = ([MsgStillInProgress url], Return false)) ->
  poll_rounds fw url i k
  = flat_map (fun i => [EvSleep STATUS_CHECK_INTERVAL; EvCheck i;
                        EvPrint (MsgStillInProgress url)]) (seq i k).
Proof.
  induction k as [|k IH]; intros i H; [reflexivity|].
  cbn [poll_rounds seq flat_map]. unfold poll_round at 1.
  rewrite (H i) by lia. rewrite (IH (S i)) by (intros; apply H; lia).
  reflexivity.
Qed.

(** *** The two blocks that touch the counter *)

Lemma solo_finally sh t :
  t_pc t = PRelease -> lock sh = None ->
  solo fw me 7 sh t
  = ({| sem := sem sh + 1; lock := None; counter := counter sh + 1 |},
     after_finally sh t).
Proof.
  destruct t as [f tot p tmp cc x h], sh as [s l c].
  cbn [t_pc lock]. intros -> ->. unfold after_finally, finally_events. cbn.
  normalize_thread. now rewrite <- !app_assoc.
Qed.

Lemma solo_early_return sh t s :
  s <> AtFinally -> t_pc t = PInc s Acquire -> lock sh = None ->
  solo fw me 4 sh t
  = ({| sem := sem sh; lock := None; counter := counter sh + 1 |},
     after_early_return s sh t).
Proof.
  destruct t as [f tot p tmp cc x h], sh as [sm l c].
  cbn [t_pc lock]. intros Hs -> ->. unfold after_early_return.
  destruct s; try congruence; cbn; normalize_thread;
    now rewrite <- !app_assoc.
Qed.

(** *** Whole calls *)

Lemma run_parse_failure sh f total out parts :
  lock sh = None ->
  parse_filename f = (out, Return parts) -> all_parts parts = false ->
  solo fw me 12 sh (new_thread f total)
  = ({| sem := sem sh + 1; lock := None; counter := counter sh + 2 |},
     {| t_file := f; t_total := total; t_pc := PDone;
        t_tmp := counter sh + 1; t_current_count := Some (counter sh + 2);
        t_exit := Some ReturnedParseFailure;
        t_hist := (EvParse :: map EvPrint out)
                  ++ [EvLock; EvStore (counter sh + 1); EvUnlock]
                  ++ finally_events f total (sem sh + 1) (counter sh + 1) |}).
Proof.
  intros Hl Hp Hall.
  change 12%nat with (1 + (4 + 7))%nat.
  rewrite solo_add.
  rewrite (solo_one sh _ _ _
             (step_parse_failure sh (new_thread f total) out parts eq_refl Hp Hall)).
  cbn [fst snd].
  rewrite solo_add, (solo_early_return sh _ AtParseFailure) by (done || congruence).
  cbn [fst snd].
  rewrite solo_finally by done.
  unfold after_finally, after_early_return; simpl.
  replace (counter sh + 1 + 1) with (counter sh + 2) by lia.
  now rewrite <- ?app_assoc.
Qed.

Lemma run_submit_failure sh f total pout app_name stage app_id sout v :
  lock sh = None ->
  parse_filename f = (pout, Return (Some (app_name, stage, app_id))) ->
  all_parts (Some (app_name, stage, app_id)) = true ->
  submit_sbom_scan app_id stage f (fw_read fw) (fw_post fw) = (sout, Return v) ->
  truthy v = false ->
  solo fw me 13 sh (new_thread f total)
  = ({| sem := sem sh + 1; lock := None; counter := counter sh + 2 |},
     {| t_file := f; t_total := total; t_pc := PDone;
        t_tmp := counter sh + 1; t_current_count := Some (counter sh + 2);
        t_exit := Some ReturnedSubmitFailure;
        t_hist := (EvParse :: map EvPrint pout)
                  ++ (EvSubmit :: map EvPrint sout)
                  ++ [EvLock; EvStore (counter sh + 1); EvUnlock]
                  ++ finally_events f total (sem sh + 1) (counter sh + 1) |}).
Proof.
  intros Hl Hp Hall Hs Hv.
  change 13%nat with (1 + (1 + (4 + 7)))%nat.
  rewrite solo_add.
  rewrite (solo_one sh _ _ _
             (step_parse_ok sh (new_thread f total) _ _ _ _ eq_refl Hp Hall)).
  cbn [fst snd].
  rewrite solo_add.
  erewrite (solo_one sh) by (apply step_submit; reflexivity).
  simpl t_file. rewrite Hs. cbn [fst snd]. rewrite Hv.
  rewrite solo_add, (solo_early_return sh _ AtSubmitFailure) by (done || congruence).
  cbn [fst snd].
  rewrite solo_finally by done.
  unfold after_finally, after_early_return; simpl.
  replace (counter sh + 1 + 1) with (counter sh + 2) by lia.
  now rewrite <- ?app_assoc.
Qed.

Lemma run_polled sh f total pout app_name stage app_id sout url k :
  lock sh = None ->
  parse_filename f = (pout, Return (Some (app_name, stage, app_id))) ->
  all_parts (Some (app_name, stage, app_id)) = true ->
  submit_sbom_scan app_id stage f (fw_read fw) (fw_post fw) = (sout, Return url) ->
  truthy url = true ->
  (forall j, (j < k)%nat -> ends_polling fw url j = false) ->
  ends_polling fw url k = true ->
  solo fw me (2 * k + 11) sh (new_thread f total)
  = ({| sem := sem sh + 1; lock := None; counter := counter sh + 1 |},
     {| t_file := f; t_total := total; t_pc := PDone;
        t_tmp := counter sh; t_current_count := Some (counter sh + 1);
        t_exit := Some (poll_exit fw url k);
        t_hist := (EvParse :: map EvPrint pout)
                  ++ (EvSubmit :: map EvPrint sout)
                  ++ poll_rounds fw url 0 (S k)
                  ++ finally_events f total (sem sh + 1) (counter sh) |}).
Proof.
  intros Hl Hp Hall Hs Hv Hno Hend.
  replace (2 * k + 11)%nat with (1 + (1 + ((2 * k + 2) + 7)))%nat by lia.
  rewrite solo_add.
  rewrite (solo_one sh _ _ _
             (step_parse_ok sh (new_thread f total) _ _ _ _ eq_refl Hp Hall)).
  cbn [fst snd].
  rewrite solo_add.
  erewrite (solo_one sh) by (apply step_submit; reflexivity).
  simpl t_file. rewrite Hs. cbn [fst snd]. rewrite Hv.
  rewrite solo_add, (polling_phase sh _ url k) by done.
  cbn [fst snd].
  rewrite solo_finally by done.
  unfold after_finally, new_thread. normalize_thread.
  rewrite <- ?app_assoc. reflexivity.
Qed.

(** *** Histories only grow *)

Lemma scan_worker_hist sh t sh' t' :
  scan_worker fw me sh t = Some (sh', t') ->
  exists evs, t_hist t' = t_hist t ++ evs.
Proof.
  intros H. worker_cases H; step_simpl; eauto;
    exists []; now rewrite app_nil_r.
Qed.

Lemma solo_hist n : forall sh t,
  exists evs, t_hist (snd (solo fw me n sh t)) = t_hist t ++ evs.
Proof.
  induction n as [|n IH]; intros sh t; simpl.
  - exists []. now rewrite app_nil_r.
  - destruct (scan_worker fw me sh t) as [[sh' t']|] eqn:E.
    + destruct (scan_worker_hist _ _ _ _ E) as [e1 H1].
      destruct (IH sh' t') as [e2 H2]. exists (e1 ++ e2).
      now rewrite H2, H1, app_assoc.
    + exists []. now rewrite app_nil_r.
Qed.

(** Once a call has returned, every state it went through holds a part of
    the final history. *)
Lemma solo_hist_final N sh t n :
  t_pc (snd (solo fw me N sh t)) = PDone ->
  exists evs,
    t_hist (snd (solo fw me N sh t)) = t_hist (snd (solo fw me n sh t)) ++ evs.
Proof.
  intros Hdone. destruct (le_lt_dec n N) as [Hle|Hlt].
  - replace N with (n + (N - n))%nat by lia. rewrite solo_add. apply solo_hist.
  - replace n with (N + (n - N))%nat by lia. rewrite (solo_add N).
    rewrite (solo_done (n - N) _ _ Hdone). exists []. now rewrite app_nil_r.
Qed.

(** A worker whose submission comes back falsy returns at line 155 and has
    never slept nor checked a status. *)
Lemma submit_failure_run sh f total pout app_name stage app_id sout v :
  lock sh = None ->
  parse_filename f = (pout, Return (Some (app_name, stage, app_id))) ->
  all_parts (Some (app_name, stage, app_id)) = true ->
  submit_sbom_scan app_id stage f (fw_read fw) (fw_post fw) = (sout, Return v) ->
  truthy v = false ->
  (t_pc (snd (solo fw me 13 sh (new_thread f total))) = PDone /\
   t_exit (snd (solo fw me 13 sh (new_thread f total))) = Some ReturnedSubmitFailure) /\
  forall n,
    count is_check (t_hist (snd (solo fw me n sh (new_thread f total)))) = 0%nat /\
    count is_sleep (t_hist (snd (solo fw me n sh (new_thread f total)))) = 0%nat.
Proof.
  intros Hl Hp Hall Hs Hv.
  pose proof (run_submit_failure sh f total _ _ _ _ _ _ Hl Hp Hall Hs Hv) as Hrun.
  split; [now rewrite Hrun|].
  intros n.
  destruct (solo_hist_final 13 sh (new_thread f total) n) as [evs Hevs];
    [now rewrite Hrun|].
  rewrite Hrun in Hevs. cbn [snd t_hist] in Hevs.
  assert (Hc : forall g, g = is_check \/ g = is_sleep ->
                 count g (t_hist (snd (solo fw me n sh (new_thread f total)))) = 0%nat).
  { intros g Hg. apply (f_equal (count g)) in Hevs.
    rewrite !count_app, !count_cons, !count_map_print, count_finally_events in Hevs
      by tauto.
    destruct Hg as [-> | ->]; simpl in Hevs; lia. }
  split; apply Hc; auto.
Qed.

(** *** The claims about one lifecycle *)



(** C6: when the file name parses and [submit_sbom_scan] returns [None]
    (or any falsy value), the call of [scan_worker] returns through the
    early [return] of the submission-failure branch, and at no point of it
    has [check_scan_status] been called or [time.sleep] run. *)
Theorem rejected_submission_never_polls sh f total pout app_name stage app_id sout v :
  lock sh = None ->
  parse_filename f = (pout, Return (Some (app_name, stage, app_id))) ->
  all_parts (Some (app_name, stage, app_id)) = true ->
  submit_sbom_scan app_id stage f (fw_read fw) (fw_post fw) = (sout, Return v) ->
  truthy v = false ->
  (t_pc (snd (solo fw me 13 sh (new_thread f total))) = PDone /\
   t_exit (snd (solo fw me 13 sh (new_thread f total))) = Some ReturnedSubmitFailure) /\
  forall n,
    count is_check (t_hist (snd (solo fw me n sh (new_thread f total)))) = 0%nat /\
    count is_sleep (t_hist (snd (solo fw me n sh (new_thread f total)))) = 0%nat.
Proof. apply submit_failure_run. Qed.

(** C7: for every [k], when the file name parses, the submission returns a
    truthy status URL, the first [k] status checks report "still in
    progress" and check [k] reports a finished scan with a report, the call
    of [scan_worker] returns after [2 * k + 11] steps through the end of
    the polling loop; its history holds exactly [k + 1] status checks and
    [k + 1] sleeps, each check coming right after a sleep of
    [STATUS_CHECK_INTERVAL] seconds and the last one printing "completed
    successfully"; the counter has gone up by one. *)
Theorem in_progress_then_success sh f total pout app_name stage app_id sout url k :
  lock sh = None ->
  parse_filename f = (pout, Return (Some (app_name, stage, app_id))) ->
  all_parts (Some (app_name, stage, app_id)) = true ->
  submit_sbom_scan app_id stage f (fw_read fw) (fw_post fw) = (sout, Return url) ->
  truthy url = true ->
  (forall i, (i < k)%nat ->
     check_scan_status url (fw_get fw i) = ([MsgStillInProgress url], Return false)) ->
  check_scan_status url (fw_get fw k) = ([MsgScanCompleted url], Return true) ->
  t_pc (snd (solo fw me (2 * k + 11) sh (new_thread f total))) = PDone
  /\ t_exit (snd (solo fw me (2 * k + 11) sh (new_thread f total)))
     = Some PollingEnded
  /\ t_hist (snd (solo fw me (2 * k + 11) sh (new_thread f total)))
     = (EvParse :: map EvPrint pout)
       ++ (EvSubmit :: map EvPrint sout)
       ++ in_progress_rounds url k
       ++ [EvSleep STATUS_CHECK_INTERVAL; EvCheck k; EvPrint (MsgScanCompleted url)]
       ++ finally_events f total (sem sh + 1) (counter sh)
  /\ count is_check (t_hist (snd (solo fw me (2 * k + 11) sh (new_thread f total))))
     = S k
  /\ count is_sleep (t_hist (snd (solo fw me (2 * k + 11) sh (new_thread f total))))
     = S k
  /\ counter (fst (solo fw me (2 * k + 11) sh (new_thread f total)))
     = counter sh + 1.
Proof.
  intros Hl Hp Hall Hs Hv Hprog Hdone.
  assert (Hno : forall j, (j < k)%nat -> ends_polling fw url j = false).
  { intros j Hj. unfold ends_polling. now rewrite (Hprog j Hj). }
  assert (Hend : ends_polling fw url k = true).
  { unfold ends_polling. now rewrite Hdone. }
  rewrite (run_polled sh f total _ _ _ _ _ _ k Hl Hp Hall Hs Hv Hno Hend).
  cbn [fst snd t_pc t_exit t_hist counter].
  split; [reflexivity|]. split; [unfold poll_exit; now rewrite Hdone|].
  split; [|split; [|split; [|reflexivity]]].
  - rewrite poll_rounds_snoc, (poll_rounds_in_progress url k 0)
      by (intros; apply Hprog; lia).
    unfold poll_round, in_progress_rounds. cbn [Nat.add]. rewrite Hdone.
    now rewrite <- ?app_assoc.
  - rewrite !count_app, !count_cons, !count_map_print, count_finally_events by auto.
    destruct (count_poll_rounds url (S k) 0) as [-> _]. simpl. lia.
  - rewrite !count_app, !count_cons, !count_map_print, count_finally_events by auto.
    destruct (count_poll_rounds url (S k) 0) as [_ ->]. simpl. lia.
Qed.

(** X21: the polling loop is left exactly when some status check
    ends it, by returning [True] or by raising past [check_scan_status]:
    when check [k] is the first to do so the loop is left after exactly
    [k + 1] checks, the worker being in the loop at every earlier step;
    when no check does, the worker is in the loop after any number of
    steps -- there is no timeout, deadline or maximum number of polls. *)
Theorem polling_ends_when_a_check_ends_it sh url t :
  t_pc t = PSleep url 0 ->
  (forall k,
     (forall j, (j < k)%nat -> ends_polling fw url j = false) ->
     ends_polling fw url k = true ->
     (forall n, (n < 2 * k + 2)%nat -> polling (snd (solo fw me n sh t)) = true) /\
     solo fw me (2 * k + 2) sh t
     = (sh, leave (poll_exit fw url k) (record (poll_rounds fw url 0 (S k)) t)) /\
     count is_check (poll_rounds fw url 0 (S k)) = S k) /\
  ((forall k, ends_polling fw url k = false) ->
   forall n, polling (snd (solo fw me n sh t)) = true) /\
  ((exists n, polling (snd (solo fw me n sh t)) = false)
   <-> exists k, ends_polling fw url k = true).
Proof.
  intros Hpc. split; [|split].
  - intros k Hno Hend. split; [|split].
    + intros n Hn. apply (polling_forever sh url t Hpc).
      intros j Hj. apply Hno. lia.
    + now apply polling_phase.
    + apply count_poll_rounds.
  - intros Hno n. apply (polling_forever sh url t Hpc). auto.
  - split.
    + intros [n Hn]. destruct (first_ending url n) as [(k & _ & He & _)|Hnone].
      * now exists k.
      * rewrite (polling_forever sh url t Hpc) in Hn; [discriminate|].
        intros j Hj. apply Hnone. lia.
    + intros [k0 Hk0].
      destruct (first_ending url (S k0)) as [(k & _ & He & Hf)|Hnone].
      * exists (2 * k + 2)%nat. now rewrite (polling_phase sh t url k).
      * rewrite Hnone in Hk0 by lia. discriminate.
Qed.

(** C10: when the server answers the POST with 202 and a JSON object that
    has no [statusUrl] field, [submit_sbom_scan] returns [None] (after
    printing "Successfully submitted"), and the call of [scan_worker]
    returns through the submission-failure branch without ever sleeping or
    checking a status. *)
Theorem accepted_without_status_url_is_a_submit_failure
    sh f total pout app_name stage app_id content r d :
  lock sh = None ->
  parse_filename f = (pout, Return (Some (app_name, stage, app_id))) ->
  all_parts (Some (app_name, stage, app_id)) = true ->
  fw_read fw = ReadOk content ->
  fw_post fw = Responds r ->
  status_code r = 202 ->
  json r = Some (PyDict d) ->
  (forall v, ~ In ("statusUrl", v) d) ->
  submit_sbom_scan app_id stage f (fw_read fw) (fw_post fw)
  = ([MsgSubmitting app_id stage (basename f); MsgSubmitted PyNone], Return PyNone)
  /\ (t_pc (snd (solo fw me 13 sh (new_thread f total))) = PDone /\
      t_exit (snd (solo fw me 13 sh (new_thread f total)))
      = Some ReturnedSubmitFailure)
  /\ forall n,
       count is_check (t_hist (snd (solo fw me n sh (new_thread f total)))) = 0%nat /\
       count is_sleep (t_hist (snd (solo fw me n sh (new_thread f total)))) = 0%nat.
Proof.
  intros Hl Hp Hall Hread Hpost Hst Hjs Habs.
  assert (Hsub : submit_sbom_scan app_id stage f (fw_read fw) (fw_post fw)
                 = ([MsgSubmitting app_id stage (basename f); MsgSubmitted PyNone],
                    Return PyNone)).
  { rewrite Hread, Hpost. unfold submit_sbom_scan, raise_for_status, response_json.
    simpl. rewrite Hst, Hjs. simpl. now rewrite (dict_get_absent d _ _ Habs). }
  split; [exact Hsub|].
  apply (submit_failure_run sh f total _ _ _ _ _ _ Hl Hp Hall Hsub). reflexivity.
Qed.

(** *** What one step does to the shared state *)

(** A step moves the semaphore exactly when the worker gives up its slot. *)
Lemma scan_worker_gate sh t sh' t' :
  scan_worker fw me sh t = Some (sh', t') ->
  sem sh' + Z.b2z (holds_slot t') = sem sh + Z.b2z (holds_slot t)
  /\ sem sh <= sem sh'.
Proof.
  intros H. unfold holds_slot. worker_cases H; step_simpl; lia.
Qed.

(** Only the holder of the lock is inside a [with lock] block, and a step
    changes the lock only from free to held by its thread, or back. *)
Lemma scan_worker_lock sh t sh' t' :
  scan_worker fw me sh t = Some (sh', t') ->
  (in_critical_section t = true -> lock sh = Some me) ->
  (in_critical_section t' = true -> lock sh' = Some me)
  /\ (lock sh' = lock sh \/ lock sh = None \/ in_critical_section t = true).
Proof.
  intros H. unfold in_critical_section.
  worker_cases H; step_simpl; intros Hin; split; auto; try discriminate;
    try (intros _; apply Hin; reflexivity).
Qed.

(** The counter cell is written only inside a [with lock] block, by a
    thread that read it under the same lock. *)
Lemma scan_worker_counter sh t sh' t' :
  scan_worker fw me sh t = Some (sh', t') ->
  (counter sh' = counter sh \/ in_critical_section t = true)
  /\ (forall s, t_pc t' = PInc s Store -> t_tmp t' = counter sh')
  /\ ((forall s, t_pc t = PInc s Store -> t_tmp t = counter sh) ->
      counter sh' - counter sh = stores t' - stores t
      /\ counter sh <= counter sh'
      /\ (t_pc t' = PSnapshot -> counter sh < counter sh')).
Proof.
  intros H. unfold in_critical_section, stores.
  worker_cases H; step_simpl; repeat split; auto; try discriminate; try lia;
    rewrite ?count_app, ?count_cons, ?count_map_print by auto; cbn; try lia;
    try (intros; specialize (H _ eq_refl); lia);
    try (specialize (H _ eq_refl); lia).
Qed.

Lemma no_store_among_prints v out : ~ In (EvStore v) (map EvPrint out).
Proof. intros H. apply in_map_iff in H as (m & Hm & _). discriminate. Qed.

(** What a step writes in the history is what it does to the semaphore and
    to the counter cell: the semaphore rises by one with each release
    recorded and moves at no other step; the cell rises by one with each
    store recorded, to the value the store records, and moves at no other
    step. *)
Lemma scan_worker_effects sh t sh' t' :
  scan_worker fw me sh t = Some (sh', t') ->
  (forall s, t_pc t = PInc s Store -> t_tmp t = counter sh) ->
  exists evs,
    t_hist t' = t_hist t ++ evs
    /\ sem sh' = sem sh + Z.of_nat (count is_release evs)
    /\ counter sh' = counter sh + Z.of_nat (count is_store evs)
    /\ (forall v, In (EvStore v) evs -> counter sh' = v).
Proof.
  intros H Htmp.
  worker_cases H; step_simpl; try specialize (Htmp _ eq_refl);
    (first [ eexists; split; [reflexivity|]
           | exists []; split; [now rewrite app_nil_r|] ]);
    rewrite ?count_cons, ?count_map_print by auto; cbn;
    (split; [lia|]); (split; [lia|]);
    intros v Hin; repeat (destruct Hin as [Hin|Hin]; try discriminate);
    try contradiction; try (now apply no_store_among_prints in Hin);
    injection Hin as <-; reflexivity.
Qed.

Lemma scan_worker_snapshot sh t sh' t' :
  scan_worker fw me sh t = Some (sh', t') ->
  t_current_count t' = t_current_count t
  \/ (t_pc t = PSnapshot /\ t_current_count t' = Some (counter sh)
      /\ counter sh' = counter sh).
Proof. intros H. worker_cases H; step_simpl; auto. Qed.

Lemma scan_worker_file sh t sh' t' :
  scan_worker fw me sh t = Some (sh', t') ->
  t_file t' = t_file t /\ t_total t' = t_total t.
Proof. intros H. worker_cases H; step_simpl; auto. Qed.

Lemma scan_worker_done sh t :
  is_done t = true -> scan_worker fw me sh t = None.
Proof.
  unfold is_done, scan_worker. destruct (t_pc t); try discriminate. reflexivity.
Qed.

Lemma local_ok_step sh t sh' t' :
  local_ok t -> scan_worker fw me sh t = Some (sh', t') -> local_ok t'.
Proof.
  intros (body & v & m1 & m2 & Hh & Hr & Hs) H.
  unfold local_ok, body_stores, returned_early in *.
  worker_cases H; try (match goal with s : site |- _ => destruct s end);
    step_simpl; cbn [finally_so_far] in *; rewrite ?app_nil_r in Hh; rewrite Hh;
    first
      [ (* a step of the [try] body: the body grows *)
        eexists _, v, m1, m2; split; [rewrite ?app_nil_r; reflexivity|];
        rewrite ?count_app, ?count_cons, ?count_map_print, ?Hr, ?Hs by auto;
        split; first [reflexivity | assumption]
      | (* a step of the [finally] block *)
        eexists body, _, _, _; rewrite <- ?app_assoc;
        split; [reflexivity|]; split; assumption ].
  Unshelve. all: first [exact v | exact m1].
Qed.

End Worker.

Lemma local_ok_new f total : local_ok (new_thread f total).
Proof. exists [], 0, MsgNoFiles, MsgNoFiles. repeat split. Qed.

Lemma done_history t :
  local_ok t -> is_done t = true ->
  exists body v m1 m2,
    t_hist t = body ++ [EvRelease; EvLock; EvStore v; EvUnlock; EvPrint m1; EvPrint m2]
    /\ count is_release body = 0%nat
    /\ count is_store body = (if returned_early t then 1 else 0)%nat.
Proof.
  intros (body & v & m1 & m2 & Hh & Hr & Hs) Hd.
  unfold is_done in Hd. unfold body_stores in Hs.
  destruct (t_pc t); try discriminate.
  exists body, v, m1, m2. auto.
Qed.

Lemma releases_so_far t :
  local_ok t ->
  count is_release (t_hist t) = (if holds_slot t then 0 else 1)%nat.
Proof.
  intros (body & v & m1 & m2 & Hh & Hr & Hs).
  rewrite Hh, count_app, Hr. unfold holds_slot.
  destruct (t_pc t) as [| | | |[] []| | | |]; reflexivity.
Qed.

Lemma in_critical_section_store t st :
  t_pc t = PInc st Store -> in_critical_section t = true.
Proof. unfold in_critical_section. now intros ->. Qed.

Lemma in_critical_section_snapshot t :
  t_pc t = PSnapshot -> in_critical_section t = true.
Proof. unfold in_critical_section. now intros ->. Qed.

(** ** Sums over the pool *)

Lemma total_app g ts1 ts2 : total g (ts1 ++ ts2) = total g ts1 + total g ts2.
Proof. induction ts1 as [|t ts1 IH]; simpl; lia. Qed.

Lemma total_insert g (ts : list thread) i t t' :
  ts !! i = Some t -> total g (<[i := t']> ts) = total g ts - g t + g t'.
Proof.
  revert i. induction ts as [|a ts IH]; intros [|i] H; simpl in *; try discriminate.
  - inversion H; subst. lia.
  - rewrite (IH i H). lia.
Qed.

Lemma total_nonneg g ts : (forall t, 0 <= g t) -> 0 <= total g ts.
Proof. intros Hg. induction ts as [|t ts IH]; simpl; [lia|]. specialize (Hg t). lia. Qed.

Lemma total_ext g1 g2 (ts : list thread) :
  (forall i t, ts !! i = Some t -> g1 t = g2 t) -> total g1 ts = total g2 ts.
Proof.
  induction ts as [|a ts IH]; intros H; simpl; [reflexivity|].
  rewrite (H 0%nat a eq_refl), IH; [reflexivity|].
  intros i t Hi. apply (H (S i) t Hi).
Qed.

Lemma total_const c (ts : list thread) :
  total (fun _ => c) ts = c * Z.of_nat (length ts).
Proof. induction ts as [|a ts IH]; cbn [total length]; lia. Qed.

Lemma total_plus g1 g2 (ts : list thread) :
  total (fun t => g1 t + g2 t) ts = total g1 ts + total g2 ts.
Proof. induction ts as [|a ts IH]; simpl; lia. Qed.

Lemma map_insert_same {B} (g : thread -> B) (ts : list thread) i t t' :
  ts !! i = Some t -> g t' = g t -> map g (<[i := t']> ts) = map g ts.
Proof.
  revert i. induction ts as [|a ts IH]; intros [|i] H Hg; simpl in *; try discriminate.
  - inversion H; subst. now rewrite Hg.
  - f_equal. now apply (IH i).
Qed.

Lemma lookup_started (ts : list thread) f tot i t :
  (ts ++ [new_thread f tot]) !! i = Some t ->
  ts !! i = Some t \/ (i = length ts /\ t = new_thread f tot).
Proof. intros H. apply lookup_snoc_Some in H. destruct H as [[_ H]|[-> <-]]; auto. Qed.

Lemma holders_nonneg s : 0 <= holders s.
Proof.
  unfold holders.
  assert (0 <= total (fun t => Z.b2z (holds_slot t)) (st_threads s)).
  { apply total_nonneg. intros t. destruct (holds_slot t); simpl; lia. }
  destruct (st_main s); lia.
Qed.

(** ** The whole program, under any schedule *)

Section Run.

Variable w : world.
Variable sbom_files : list string.

Lemma invariant_init : invariant sbom_files (init sbom_files).
Proof.
  destruct sbom_files as [|f fs]; constructor; simpl;
    try (unfold holders; simpl); try lia; try reflexivity;
    try (unfold MAX_CONCURRENT_SCANS; lia);
    intros; discriminate.
Qed.

Lemma invariant_main s s' :
  invariant sbom_files s -> main s = Some s' -> invariant sbom_files s'.
Proof.
  intros [Hsem Hgate Hlock Htmp Hcnt Hsnap Hdis Hfiles Hjoin Hloc] H.
  unfold main in H. unfold holders in Hgate.
  destruct (st_main s) as [[|f rest]|f rest|k| |code] eqn:Hm; simpl in *.
  - (* the launching loop is over *)
    injection H as <-. constructor; simpl; auto; try discriminate.
  - (* semaphore.acquire() *)
    destruct (Z.ltb_spec 0 (sem (st_shared s))) as [Hpos|]; [|discriminate].
    injection H as <-.
    constructor; unfold holders; simpl; auto; try lia; try discriminate.
  - (* thread.start() *)
    injection H as <-.
    constructor; unfold holders; simpl; auto.
    + rewrite total_app. simpl. lia.
    + intros i t Hi Hin. apply lookup_started in Hi as [Hi|[-> ->]]; [eauto | discriminate].
    + intros i t st Hi Hp. apply lookup_started in Hi as [Hi|[-> ->]]; [eauto | discriminate].
    + rewrite total_app.
      change (total stores [new_thread f (st_total s)]) with 0. lia.
    + intros i t c Hi Hc. apply lookup_started in Hi as [Hi|[-> ->]]; [|discriminate].
      destruct (Hsnap i t c Hi Hc) as [Hle Hlt]. split; [assumption|].
      intros j tj Hj Hp. apply lookup_started in Hj as [Hj|[-> ->]]; [eauto | discriminate].
    + intros i j ti tj c Hi Hj Hci Hcj.
      apply lookup_started in Hi as [Hi|[-> ->]]; [|discriminate].
      apply lookup_started in Hj as [Hj|[-> ->]]; [eauto | discriminate].
    + rewrite map_app, <- app_assoc. exact Hfiles.
    + intros; discriminate.
    + intros i t Hi. apply lookup_started in Hi as [Hi|[-> ->]];
        [eauto | apply local_ok_new].
  - (* thread.join() *)
    destruct (st_threads s !! k) as [tk|] eqn:Hk.
    + destruct (is_done tk) eqn:Hd; [|discriminate].
      injection H as <-.
      constructor; unfold holders; simpl; auto.
      intros i t Hi Hlt. apply Nat.ltb_lt in Hlt.
      destruct (Nat.eq_dec i k) as [->|Hne]; [congruence|].
      apply (Hjoin i t Hi). apply Nat.ltb_lt. lia.
    + injection H as <-.
      constructor; unfold holders; simpl; auto.
      intros i t Hi _. apply (Hjoin i t Hi). apply Nat.ltb_lt.
      apply lookup_lt_Some in Hi. apply lookup_ge_None in Hk. lia.
  - discriminate.
  - discriminate.
Qed.

Lemma invariant_worker i s s' :
  invariant sbom_files s -> step w (Worker i) s = Some s' ->
  invariant sbom_files s'.
Proof.
  intros [Hsem Hgate Hlock Htmp Hcnt Hsnap Hdis Hfiles Hjoin Hloc] H.
  unfold step in H.
  destruct (st_threads s !! i) as [t|] eqn:Hi; [|discriminate].
  destruct (scan_worker (w (t_file t)) i (st_shared s) t) as [[sh' t']|] eqn:Hw;
    [|discriminate].
  injection H as <-.
  destruct (scan_worker_gate _ _ _ _ _ _ Hw) as [Hg1 Hg2].
  destruct (scan_worker_lock _ _ _ _ _ _ Hw (Hlock i t Hi)) as [Hl1 Hl2].
  destruct (scan_worker_counter _ _ _ _ _ _ Hw) as (Hc1 & Hc2 & Hc3).
  destruct (Hc3 (fun st => Htmp i t st Hi)) as (Hc3a & Hc3b & Hc3c). clear Hc3.
  pose proof (scan_worker_snapshot _ _ _ _ _ _ Hw) as Hsn.
  assert (Hothers : forall j tj, j <> i -> st_threads s !! j = Some tj ->
            in_critical_section tj = true ->
            lock sh' = Some j /\ counter sh' = counter (st_shared s)).
  { intros j tj Hne Hj Hin. pose proof (Hlock j tj Hj Hin) as Hlj.
    assert (Hout : in_critical_section t = true -> False).
    { intros Hin'. apply Hlock in Hi; [|assumption]. congruence. }
    split.
    - destruct Hl2 as [->|[Hn|Hin']]; [assumption | congruence | tauto].
    - destruct Hc1 as [->|Hin']; [reflexivity | tauto]. }
  constructor; cbn [st_shared st_main st_total st_threads st_out].
  - lia.
  - unfold holders in *. cbn [st_main st_threads].
    rewrite (total_insert _ _ _ _ _ Hi). lia.
  - intros j tj Hj Hin. apply list_lookup_insert_Some in Hj as [(<- & <- & _)|[Hne Hj]].
    + auto.
    + now apply (Hothers j tj).
  - intros j tj st Hj Hp. apply list_lookup_insert_Some in Hj as [(<- & <- & _)|[Hne Hj]].
    + eauto.
    + rewrite (Htmp j tj st Hj Hp). symmetry.
      apply (Hothers j tj); auto. eapply in_critical_section_store; eauto.
  - rewrite (total_insert _ _ _ _ _ Hi). lia.
  - intros k tk c Hk Hc.
    assert (Hnew : forall j tj, <[i:=t']> (st_threads s) !! j = Some tj ->
              t_pc tj = PSnapshot ->
              (j = i /\ counter (st_shared s) < counter sh')
              \/ (j <> i /\ st_threads s !! j = Some tj)).
    { intros j tj Hj Hp.
      apply list_lookup_insert_Some in Hj as [(<- & <- & _)|[Hne Hj]]; auto. }
    apply list_lookup_insert_Some in Hk as [(<- & <- & _)|[Hne Hk]].
    + destruct Hsn as [Hsame|(Hp & Hcc & Hceq)].
      * rewrite Hsame in Hc. destruct (Hsnap i t c Hi Hc) as [Hle Hlt].
        split; [lia|]. intros j tj Hj Hpj.
        destruct (Hnew j tj Hj Hpj) as [[-> Hinc]|[Hne Hj']]; [lia|].
        specialize (Hlt j tj Hj' Hpj). lia.
      * rewrite Hcc in Hc. injection Hc as <-. split; [lia|].
        intros j tj Hj Hpj.
        destruct (Hnew j tj Hj Hpj) as [[-> Hinc]|[Hne Hj']]; [lia|].
        exfalso. pose proof (Hlock i t Hi (in_critical_section_snapshot t Hp)).
        pose proof (Hlock j tj Hj' (in_critical_section_snapshot tj Hpj)). congruence.
    + destruct (Hsnap k tk c Hk Hc) as [Hle Hlt].
      split; [lia|]. intros j tj Hj Hpj.
      destruct (Hnew j tj Hj Hpj) as [[-> Hinc]|[Hne' Hj']]; [lia|].
      specialize (Hlt j tj Hj' Hpj). lia.
  - intros a b ta tb c Ha Hb Hca Hcb.
    assert (Hfresh : forall k tk, k <> i -> st_threads s !! k = Some tk ->
              t_current_count tk = Some c -> t_current_count t' = Some c -> False).
    { intros k tk Hne Hk Hck Hct.
      destruct Hsn as [Hsame|(Hp & Hcc & Hceq)].
      - rewrite Hsame in Hct. apply Hne. eapply Hdis; eauto.
      - rewrite Hcc in Hct. injection Hct as <-.
        destruct (Hsnap k tk _ Hk Hck) as [_ Hlt]. specialize (Hlt i t Hi Hp). lia. }
    apply list_lookup_insert_Some in Ha as [(<- & <- & _)|[Hna Ha]];
      apply list_lookup_insert_Some in Hb as [(<- & <- & _)|[Hnb Hb]].
    + reflexivity.
    + exfalso. eapply Hfresh; eauto.
    + exfalso. eapply Hfresh; eauto.
    + eapply Hdis; eauto.
  - rewrite (map_insert_same t_file _ _ _ _ Hi); [assumption|].
    apply (scan_worker_file _ _ _ _ _ _ Hw).
  - intros k tk Hk Hj. apply list_lookup_insert_Some in Hk as [(<- & <- & _)|[Hne Hk]].
    + pose proof (Hjoin i t Hi Hj) as Hd.
      rewrite (scan_worker_done _ _ _ _ Hd) in Hw. discriminate.
    + eauto.
  - intros k tk Hk. apply list_lookup_insert_Some in Hk as [(<- & <- & _)|[Hne Hk]].
    + eapply local_ok_step; eauto.
    + eauto.
Qed.

Lemma invariant_step x s s' :
  invariant sbom_files s -> step w x s = Some s' -> invariant sbom_files s'.
Proof.
  destruct x as [|i]; [apply invariant_main | apply invariant_worker].
Qed.

Lemma invariant_reachable s :
  reachable w sbom_files s -> invariant sbom_files s.
Proof.
  induction 1 as [|x s s' _ IH Hstep]; [apply invariant_init|].
  eapply invariant_step; eauto.
Qed.

Lemma reachable_run sched : forall s,
  reachable w sbom_files s -> reachable w sbom_files (run w sched s).
Proof.
  induction sched as [|x sched IH]; intros s Hs; simpl; [assumption|].
  destruct (step w x s) as [s'|] eqn:E; [|now apply IH].
  apply IH. eapply reachable_step; eauto.
Qed.

Lemma run_app l1 : forall l2 s,
  run w (l1 ++ l2) s = run w l2 (run w l1 s).
Proof.
  induction l1 as [|y l1 IH]; intros l2 s; simpl; [reflexivity|].
  destruct (step w y s); apply IH.
Qed.

(** The reachable states are the states the schedules lead to. *)
Lemma reachable_is_run s :
  reachable w sbom_files s <-> exists sched, s = run w sched (init sbom_files).
Proof.
  split.
  - induction 1 as [|x s s' _ [sched ->] Hstep].
    + now exists [].
    + exists (sched ++ [x]). rewrite run_app. simpl. now rewrite Hstep.
  - intros [sched ->]. apply reachable_run. constructor.
Qed.

Lemma finished_all_done s :
  invariant sbom_files s -> finished s = true ->
  forall i t, st_threads s !! i = Some t -> is_done t = true.
Proof.
  intros Hinv Hf i t Hi. apply (inv_join _ _ Hinv i t Hi).
  unfold finished in Hf. destruct (st_main s); try discriminate. reflexivity.
Qed.

Lemma finished_threads s :
  invariant sbom_files s -> finished s = true ->
  length (st_threads s) = length sbom_files.
Proof.
  intros Hinv Hf. rewrite <- (inv_files _ _ Hinv).
  unfold finished in Hf. destruct (st_main s); try discriminate.
  simpl. now rewrite app_nil_r, length_map.
Qed.

(** X20: when the run is over the counter holds one increment for each file,
    plus one more for each worker that left by an early [return]. *)
Lemma final_counter s :
  reachable w sbom_files s -> finished s = true ->
  counter (st_shared s) = Z.of_nat (length sbom_files) + early_returns s.
Proof.
  intros Hr Hf. pose proof (invariant_reachable _ Hr) as Hinv.
  rewrite (inv_counter _ _ Hinv).
  rewrite (total_ext stores (fun t => 1 + Z.b2z (returned_early t))).
  - rewrite (total_plus (fun _ => 1)), total_const.
    rewrite (finished_threads _ Hinv Hf). unfold early_returns. lia.
  - intros i t Hi.
    destruct (done_history t (inv_local _ _ Hinv i t Hi)
                (finished_all_done _ Hinv Hf i t Hi))
      as (body & v & m1 & m2 & Hh & _ & Hs).
    unfold stores. rewrite Hh, count_app, Hs.
    destruct (returned_early t); reflexivity.
Qed.

(** C2: in every state a run of the program can reach, the semaphore value
    lies between 0 and [MAX_CONCURRENT_SCANS], and the number of lifecycles
    holding a gate slot -- workers that have not yet run
    [semaphore.release()], plus the one the main thread has acquired a slot
    for and not started yet -- is [MAX_CONCURRENT_SCANS] minus that value,
    hence at most [MAX_CONCURRENT_SCANS]. *)
Theorem gate_bounds_lifecycles_in_flight s :
  reachable w sbom_files s ->
  0 <= sem (st_shared s) <= MAX_CONCURRENT_SCANS
  /\ holders s = MAX_CONCURRENT_SCANS - sem (st_shared s)
  /\ 0 <= holders s <= MAX_CONCURRENT_SCANS.
Proof.
  intros Hr. destruct (invariant_reachable _ Hr) as [Hsem Hgate _ _ _ _ _ _ _ _].
  pose proof (holders_nonneg s). lia.
Qed.

(** In every reachable state the semaphore holds its initial value, minus
    the acquires of the main thread, plus the releases of the workers. *)
Lemma semaphore_account s :
  reachable w sbom_files s ->
  sem (st_shared s)
  = MAX_CONCURRENT_SCANS - acquired s + total releases (st_threads s).
Proof.
  intros Hr. pose proof (invariant_reachable _ Hr) as Hinv.
  pose proof (inv_gate _ _ Hinv) as Hg. unfold holders in Hg. unfold acquired.
  assert (Hsum : total releases (st_threads s)
                 + total (fun t => Z.b2z (holds_slot t)) (st_threads s)
                 = Z.of_nat (length (st_threads s))).
  { rewrite <- total_plus.
    rewrite (total_ext _ (fun _ => 1)), total_const; [lia|].
    intros i t Hi. unfold releases.
    rewrite (releases_so_far t (inv_local _ _ Hinv i t Hi)).
    destruct (holds_slot t); reflexivity. }
  lia.
Qed.

(** C3: in every reachable state, a worker has released the semaphore once
    if it is past [semaphore.release()] and not at all before; a worker
    that has finished, by whatever path (early return, end of polling, or
    an exception raised in the [try] body), has a history that ends with
    the [finally] block: one release, then the locked increment of the
    counter, then the two prints, with no release before; when the main
    thread has joined every worker the semaphore is back at
    [MAX_CONCURRENT_SCANS].  The releases and stores of the histories are
    those of [semaphore._value] and [processed_counter[0]]: the semaphore
    holds [MAX_CONCURRENT_SCANS] minus the acquires of the main thread plus
    the releases of the workers; and a step of a worker appends to its
    history, raises the semaphore by one if what it appends is a release
    and leaves it alone otherwise, and raises the counter by one, to the
    value recorded, if what it appends is a store, and leaves it alone
    otherwise. *)
Theorem slot_released_once_before_final_count s :
  reachable w sbom_files s ->
  (forall i t, st_threads s !! i = Some t ->
     count is_release (t_hist t) = (if holds_slot t then 0 else 1)%nat)
  /\ (forall i t, st_threads s !! i = Some t -> is_done t = true ->
        count is_release (t_hist t) = 1%nat
        /\ exists body v m1 m2,
             t_hist t = body ++ [EvRelease; EvLock; EvStore v; EvUnlock;
                                 EvPrint m1; EvPrint m2]
             /\ count is_release body = 0%nat)
  /\ (finished s = true -> sem (st_shared s) = MAX_CONCURRENT_SCANS)
  /\ sem (st_shared s)
     = MAX_CONCURRENT_SCANS - acquired s + total releases (st_threads s)
  /\ (forall i s' t t',
        step w (Worker i) s = Some s' ->
        st_threads s !! i = Some t -> st_threads s' !! i = Some t' ->
        exists evs,
          t_hist t' = t_hist t ++ evs
          /\ sem (st_shared s')
             = sem (st_shared s) + Z.of_nat (count is_release evs)
          /\ counter (st_shared s')
             = counter (st_shared s) + Z.of_nat (count is_store evs)
          /\ (forall v, In (EvStore v) evs -> counter (st_shared s') = v)).
Proof.
  intros Hr. pose proof (invariant_reachable _ Hr) as Hinv.
  split; [|split; [|split; [|split]]].
  - intros i t Hi. apply releases_so_far. eapply inv_local; eauto.
  - intros i t Hi Hd. pose proof (inv_local _ _ Hinv i t Hi) as Hloc. split.
    + rewrite (releases_so_far t Hloc). unfold holds_slot, is_done in *.
      destruct (t_pc t); try discriminate. reflexivity.
    + destruct (done_history t Hloc Hd) as (body & v & m1 & m2 & Hh & Hb & _).
      exists body, v, m1, m2. auto.
  - intros Hf. pose proof (inv_gate _ _ Hinv) as Hg. unfold holders in Hg.
    rewrite (total_ext _ (fun _ => 0)), total_const in Hg.
    + unfold finished in Hf. destruct (st_main s); try discriminate. lia.
    + intros i t Hi. pose proof (finished_all_done _ Hinv Hf i t Hi) as Hd.
      unfold is_done, holds_slot in *. destruct (t_pc t); try discriminate. reflexivity.
  - now apply semaphore_account.
  - intros i s' t t' Hstep Hi Hi'. unfold step in Hstep. rewrite Hi in Hstep.
    destruct (scan_worker (w (t_file t)) i (st_shared s) t) as [[sh' t1]|] eqn:Hw;
      [|discriminate].
    injection Hstep as <-. cbn [st_threads st_shared] in *.
    apply list_lookup_insert_Some in Hi' as [(_ & <- & _)|[Hne _]]; [|congruence].
    apply (scan_worker_effects _ _ _ _ _ _ Hw).
    intros st Hp. apply (inv_tmp _ _ Hinv i t st Hi Hp).
Qed.

(** C8: in every reachable state the counter equals the number of
    lock-guarded increments the workers have completed, so no update is
    lost, whatever the interleaving and the number of workers; the values
    of [current_count] read under the lock by two different workers differ;
    and when the run is over and each of the N workers has made exactly one
    increment, the counter is N. *)
Theorem locked_increments_are_never_lost s :
  reachable w sbom_files s ->
  counter (st_shared s) = total stores (st_threads s)
  /\ (forall i j ti tj c,
        st_threads s !! i = Some ti -> st_threads s !! j = Some tj ->
        t_current_count ti = Some c -> t_current_count tj = Some c -> i = j)
  /\ (finished s = true ->
      (forall i t, st_threads s !! i = Some t -> stores t = 1) ->
      counter (st_shared s) = Z.of_nat (length sbom_files)).
Proof.
  intros Hr. pose proof (invariant_reachable _ Hr) as Hinv.
  split; [apply (inv_counter _ _ Hinv)|]. split; [apply (inv_distinct _ _ Hinv)|].
  intros Hf Hone.
  rewrite (inv_counter _ _ Hinv), (total_ext stores (fun _ => 1) _ Hone), total_const.
  rewrite (finished_threads _ Hinv Hf). lia.
Qed.

End Run.

(** ** The program on sample inputs *)

(** C1: the counter does not count each file once.  A file whose name does
    not parse ([/sboms/report.xml]) is counted at line 147 and again at
    line 166, and so is a file whose submission fails (here with a 500):
    on one such file the run ends with the counter at 2 and prints
    "PROCESSED 2/1". *)
Theorem early_return_is_counted_twice (w : world) :
  (let s := run w (fair 1 16) (init [bad_file]) in
   finished s = true /\ st_total s = 1 /\ counter (st_shared s) = 2
   /\ map t_exit (st_threads s) = [Some ReturnedParseFailure]
   /\ map (fun t => last (t_hist t)) (st_threads s)
      = [Some (EvPrint (MsgProcessed 2 1))])
  /\ (let s := run (fun _ => refuses) (fair 1 16) (init [good_file]) in
      finished s = true /\ st_total s = 1 /\ counter (st_shared s) = 2
      /\ map t_exit (st_threads s) = [Some ReturnedSubmitFailure]).
Proof. vm_compute. repeat split. Qed.

Lemma gate_bounds_witness :
  let w : world := fun _ => completes_after 1 in
  let s := run w (fair 12 3) (init twelve_files) in
  reachable w twelve_files s
  /\ 0 <= sem (st_shared s) <= MAX_CONCURRENT_SCANS
  /\ holders s = MAX_CONCURRENT_SCANS - sem (st_shared s)
  /\ 0 <= holders s <= MAX_CONCURRENT_SCANS.
Proof.
  intros w s.
  assert (Hr : reachable w twelve_files s) by (apply reachable_run; constructor).
  split; [exact Hr|]. exact (gate_bounds_lifecycles_in_flight w twelve_files s Hr).
Defined.

Lemma slot_released_witness :
  let s := run mixed_world (fair 4 40) (init mixed_files) in
  let s1 := run mixed_world (fair 4 9) (init mixed_files) in
  let s2 := run mixed_world (fair 4 6 ++ [Worker 2]) (init mixed_files) in
  let s3 := run mixed_world (fair 4 6 ++ [Worker 2; Worker 2]) (init mixed_files) in
  reachable mixed_world mixed_files s
  /\ finished s = true
  /\ sem (st_shared s) = MAX_CONCURRENT_SCANS
  /\ (acquired s1 = 4 /\ total releases (st_threads s1) = 3
      /\ sem (st_shared s1)
         = MAX_CONCURRENT_SCANS - acquired s1 + total releases (st_threads s1))
  /\ (step mixed_world (Worker 2) s2 = Some s3
      /\ map t_pc (st_threads s2) !! 2%nat = Some PRelease
      /\ forall t t', st_threads s2 !! 2%nat = Some t -> st_threads s3 !! 2%nat = Some t' ->
           exists evs,
             t_hist t' = t_hist t ++ evs
             /\ sem (st_shared s3)
                = sem (st_shared s2) + Z.of_nat (count is_release evs)
             /\ counter (st_shared s3)
                = counter (st_shared s2) + Z.of_nat (count is_store evs)
             /\ (forall v, In (EvStore v) evs -> counter (st_shared s3) = v)).
Proof.
  intros s s1 s2 s3.
  assert (Hr : reachable mixed_world mixed_files s) by (apply reachable_run; constructor).
  assert (Hr1 : reachable mixed_world mixed_files s1) by (apply reachable_run; constructor).
  assert (Hr2 : reachable mixed_world mixed_files s2) by (apply reachable_run; constructor).
  assert (Hstep : step mixed_world (Worker 2) s2 = Some s3) by (vm_compute; reflexivity).
  destruct (slot_released_once_before_final_count mixed_world mixed_files s Hr)
    as (_ & _ & Hback & _ & _).
  destruct (slot_released_once_before_final_count mixed_world mixed_files s1 Hr1)
    as (_ & _ & _ & Haccount & _).
  destruct (slot_released_once_before_final_count mixed_world mixed_files s2 Hr2)
    as (_ & _ & _ & _ & Heffects).
  split; [exact Hr|]. split; [vm_compute; reflexivity|].
  split; [apply Hback; vm_compute; reflexivity|].
  split.
  { split; [vm_compute; reflexivity|]. split; [vm_compute; reflexivity|].
    exact Haccount. }
  split; [exact Hstep|]. split; [vm_compute; reflexivity|].
  intros t t'. exact (Heffects 2%nat s3 t t' Hstep).
Defined.

Lemma locked_increments_witness :
  let w : world := fun _ => completes_after 1 in
  let s := run w (fair 12 60) (init twelve_files) in
  reachable w twelve_files s
  /\ finished s = true
  /\ counter (st_shared s) = 12.
Proof.
  intros w s.
  assert (Hr : reachable w twelve_files s) by (apply reachable_run; constructor).
  split; [exact Hr|]. split; [vm_compute; reflexivity|].
  apply (locked_increments_are_never_lost w twelve_files s Hr).
  - vm_compute; reflexivity.
  - intros i t Hi. vm_compute in Hi.
    repeat (destruct i as [|i]; [injection Hi as <-; vm_compute; reflexivity|]).
    discriminate.
Defined.

(** C4: [submit_sbom_scan] does raise to its caller.  When the POST is
    answered 202 with a body that is a JSON array, [response.json().get]
    at line 71 raises [AttributeError], which none of the [except] clauses
    of lines 79-90 catches: after printing "Submitting scan" the call ends
    with that exception instead of returning [None]. *)
Theorem submit_raises_on_accepted_array :
  submit_sbom_scan "a1" "build" good_file (ReadOk "<bom/>") (Responds accepted_with_array)
  = ([MsgSubmitting "a1" "build" "web_shop_build_a1.xml"],
     Raise (AttributeError "get")).
Proof. reflexivity. Qed.

Lemma submit_rejects_witness :
  submit_sbom_scan "a1" "build" good_file (ReadRaises (OSError "Permission denied"))
    (Responds server_error)
  = ([MsgReadError good_file (OSError "Permission denied")], Return PyNone)
  /\ snd (submit_sbom_scan "a1" "build" good_file (ReadOk "<bom/>")
            (Raises (Timeout "read timed out")))
     = Return PyNone
  /\ submit_sbom_scan "a1" "build" good_file (ReadOk "<bom/>") (Responds server_error)
     = ([MsgSubmitting "a1" "build" (basename good_file);
         MsgSubmitHTTPError (basename good_file)
           (HTTPError 500 "Internal Server Error");
         MsgServerResponse 500 "Internal Server Error"],
        Return PyNone)
  /\ (exists content r d,
        ReadOk "<bom/>" = ReadOk content /\ Responds accepted = Responds r
        /\ status_code r = 202 /\ json r = Some (PyDict d)
        /\ status_url_1 = dict_get d "statusUrl" PyNone)
  /\ isinstance_IOError (AttributeError "get") = false.
Proof.
  split; [|split; [|split; [|split]]].
  - exact (proj1 (submit_rejects_transport_failures "a1" "build" good_file
                    (ReadRaises (OSError "Permission denied")) (Responds server_error))
             "Permission denied" eq_refl).
  - exact (proj1 (proj1 (proj2 (submit_rejects_transport_failures "a1" "build"
                           good_file (ReadOk "<bom/>")
                           (Raises (Timeout "read timed out"))))
                    "<bom/>" (Timeout "read timed out") eq_refl eq_refl eq_refl)).
  - refine (proj1 (proj2 (proj2 (submit_rejects_transport_failures "a1" "build"
                            good_file (ReadOk "<bom/>") (Responds server_error))))
              "<bom/>" server_error eq_refl eq_refl _).
    simpl; lia.
  - refine (proj1 (proj2 (proj2 (proj2 (submit_rejects_transport_failures "a1"
                            "build" good_file (ReadOk "<bom/>") (Responds accepted)))))
              [MsgSubmitting "a1" "build" "web_shop_build_a1.xml";
               MsgSubmitted status_url_1]
              status_url_1 eq_refl _).
    discriminate.
  - exact (proj2 (proj2 (proj2 (proj2 (submit_rejects_transport_failures "a1"
                            "build" good_file (ReadOk "<bom/>")
                            (Responds accepted_with_array)))))
             [MsgSubmitting "a1" "build" "web_shop_build_a1.xml"]
             (AttributeError "get") eq_refl).
Defined.


Lemma rejected_submission_witness :
  (t_pc (snd (solo refuses 0 13 free (new_thread good_file 1))) = PDone /\
   t_exit (snd (solo refuses 0 13 free (new_thread good_file 1)))
   = Some ReturnedSubmitFailure) /\
  forall n,
    count is_check (t_hist (snd (solo refuses 0 n free (new_thread good_file 1)))) = 0%nat /\
    count is_sleep (t_hist (snd (solo refuses 0 n free (new_thread good_file 1)))) = 0%nat.
Proof.
  eapply (rejected_submission_never_polls refuses 0 free good_file 1
            [] "web_shop" "build" "a1"); reflexivity.
Defined.

Lemma in_progress_then_success_witness :
  t_pc (snd (solo (completes_after 2) 0 15 free (new_thread good_file 1))) = PDone
  /\ count is_check
       (t_hist (snd (solo (completes_after 2) 0 15 free (new_thread good_file 1))))
     = 3%nat
  /\ counter (fst (solo (completes_after 2) 0 15 free (new_thread good_file 1))) = 1.
Proof.
  assert (Hprog : forall i, (i < 2)%nat ->
            check_scan_status status_url_1 (fw_get (completes_after 2) i)
            = ([MsgStillInProgress status_url_1], Return false)).
  { intros i Hi. destruct i as [|[|i]]; [reflexivity | reflexivity | lia]. }
  pose proof (in_progress_then_success (completes_after 2) 0 free good_file 1
                [] "web_shop" "build" "a1" _ status_url_1 2
                eq_refl eq_refl eq_refl eq_refl eq_refl Hprog eq_refl)
    as (Hpc & _ & _ & Hchecks & _ & Hcounter).
  split; [exact Hpc|]. split; [exact Hchecks | exact Hcounter].
Defined.

(** C9: the polling loop can end although no status check reports
    completion.  When the status endpoint answers 200 with a JSON array,
    no check ever returns [True]; yet [status_data.get] at line 112
    raises [AttributeError] past the [except] clause of line 124, the
    worker is out of the loop after its first check, and the call of
    [scan_worker] ends with that exception instead of polling on. *)
Theorem polling_ends_without_terminal_status :
  (forall i, snd (check_scan_status status_url_1 (fw_get answers_with_array i))
             <> Return true)
  /\ polling (snd (solo answers_with_array 0 2 free polling_thread)) = false
  /\ t_pc (snd (solo answers_with_array 0 11 free (new_thread good_file 1))) = PDone
  /\ t_exit (snd (solo answers_with_array 0 11 free (new_thread good_file 1)))
     = Some (Fault (AttributeError "get")).
Proof. repeat split. intros i. discriminate. Qed.

Lemma polling_ends_witness :
  (forall n, (n < 2 * 2 + 2)%nat ->
     polling (snd (solo (completes_after 2) 0 n free polling_thread)) = true)
  /\ t_pc (snd (solo (completes_after 2) 0 (2 * 2 + 2) free polling_thread)) = PRelease
  /\ ((exists n, polling (snd (solo answers_with_array 0 n free polling_thread)) = false)
      <-> exists k, ends_polling answers_with_array status_url_1 k = true).
Proof.
  destruct (polling_ends_when_a_check_ends_it (completes_after 2) 0 free
              status_url_1 polling_thread eq_refl) as (Hfirst & _ & _).
  destruct (Hfirst 2%nat) as (Hin & Hout & _).
  { intros j Hj. destruct j as [|[|j]]; [reflexivity | reflexivity | lia]. }
  { reflexivity. }
  split; [exact Hin|]. split; [now rewrite Hout|].
  apply (polling_ends_when_a_check_ends_it answers_with_array 0 free
           status_url_1 polling_thread eq_refl).
Defined.

Lemma accepted_without_status_url_witness :
  submit_sbom_scan "a1" "build" good_file
    (fw_read accepts_without_url) (fw_post accepts_without_url)
  = ([MsgSubmitting "a1" "build" (basename good_file); MsgSubmitted PyNone],
     Return PyNone)
  /\ t_exit (snd (solo accepts_without_url 0 13 free (new_thread good_file 1)))
     = Some ReturnedSubmitFailure.
Proof.
  destruct (accepted_without_status_url_is_a_submit_failure accepts_without_url 0
              free good_file 1 [] "web_shop" "build" "a1" "<bom/>"
              accepted_without_url [] eq_refl eq_refl eq_refl eq_refl eq_refl
              eq_refl eq_refl (fun v H => H))
    as (Hsub & (_ & Hexit) & _).
  split; [exact Hsub | exact Hexit].
Defined.

(** * Further properties of the code *)

(** ** File names *)

Lemma string_app_cons a s1 s2 : String a s1 +:+ s2 = String a (s1 +:+ s2).
Proof. reflexivity. Qed.

Lemma string_app_nil s : "" +:+ s = s.
Proof. reflexivity. Qed.

Lemma string_app_assoc (a b c : string) : (a +:+ b) +:+ c = a +:+ (b +:+ c).
Proof.
  induction a as [|x a IH]; [reflexivity|].
  rewrite !string_app_cons. now rewrite IH.
Qed.

Lemma contains_app c s1 s2 :
  contains c (s1 +:+ s2) = contains c s1 || contains c s2.
Proof.
  induction s1 as [|a s1 IH]; [reflexivity|].
  rewrite string_app_cons. simpl. rewrite IH. now rewrite orb_assoc.
Qed.

Lemma occurrences_none c s : occurrences c s = 0%nat <-> contains c s = false.
Proof.
  induction s as [|a s IH]; simpl; [tauto|].
  destruct (Ascii.eqb a c); simpl; [split; discriminate | exact IH].
Qed.

Lemma rsplit1_none c s : rsplit1 c s = None <-> contains c s = false.
Proof.
  induction s as [|a s IH]; simpl; [tauto|].
  destruct (rsplit1 c s) as [[h t]|].
  - split; [discriminate|]. intros H. apply orb_false_iff in H as [_ H].
    apply IH in H. discriminate.
  - destruct (Ascii.eqb a c); simpl; [split; discriminate|].
    split; intros _; [now apply IH | reflexivity].
Qed.

(** [rsplit1] cuts at the last occurrence. *)
Lemma rsplit1_some c s h t :
  rsplit1 c s = Some (h, t) ->
  s = h +:+ String c t /\ contains c t = false
  /\ occurrences c s = S (occurrences c h).
Proof.
  revert h. induction s as [|a s IH]; intros h H; simpl in H; [discriminate|].
  destruct (rsplit1 c s) as [[h' t']|] eqn:E.
  - injection H as <- <-. destruct (IH h' eq_refl) as (-> & Ht & Ho).
    repeat split; auto. simpl. rewrite Ho. lia.
  - destruct (Ascii.eqb_spec a c) as [->|Hne]; [|discriminate].
    injection H as <- <-. apply rsplit1_none in E.
    repeat split; auto. simpl. rewrite Ascii.eqb_refl.
    apply occurrences_none in E. now rewrite E.
Qed.

Lemma rsplit1_app c h t :
  contains c t = false -> rsplit1 c (h +:+ String c t) = Some (h, t).
Proof.
  intros Ht. induction h as [|a h IH].
  - rewrite string_app_nil. simpl.
    apply rsplit1_none in Ht. rewrite Ht. now rewrite Ascii.eqb_refl.
  - rewrite string_app_cons. simpl. now rewrite IH.
Qed.

Lemma all_dots_contains c s :
  c <> "."%char -> all_dots s = true -> contains c s = false.
Proof.
  intros Hc. induction s as [|a s IH]; simpl; [reflexivity|].
  intros H. apply andb_true_iff in H as [Ha Hs].
  apply Ascii.eqb_eq in Ha. subst a.
  destruct (Ascii.eqb_spec "."%char c) as [E|_]; [congruence|]. simpl. auto.
Qed.

(** The three shapes of [s.rsplit('_', 2)], by the number of underscores. *)
Lemma rsplit_2_cases s :
  (occurrences "_" s = 0%nat /\ rsplit_2 s = [s])
  \/ (occurrences "_" s = 1%nat /\ exists h t, rsplit_2 s = [h; t])
  \/ ((2 <= occurrences "_" s)%nat /\
      exists a b c, rsplit_2 s = [a; b; c]
        /\ s = a +:+ "_" +:+ b +:+ "_" +:+ c
        /\ contains "_" b = false /\ contains "_" c = false).
Proof.
  unfold rsplit_2. destruct (rsplit1 "_" s) as [[h t2]|] eqn:E1.
  - apply rsplit1_some in E1 as (Hs & Ht2 & Ho1).
    destruct (rsplit1 "_" h) as [[h1 t1]|] eqn:E2.
    + apply rsplit1_some in E2 as (Hh & Ht1 & Ho2).
      right; right. split; [lia|]. exists h1, t1, t2. repeat split; auto.
      rewrite Hs, Hh. now rewrite string_app_assoc.
    + apply rsplit1_none, occurrences_none in E2.
      right; left. split; [lia|]. eauto.
  - apply rsplit1_none, occurrences_none in E1. left. auto.
Qed.

(** X1: a path [directory/appname_stage_id.xml] is parsed back into its
    three parts, whatever underscores and dots the application name holds,
    provided no part holds a slash and neither the stage nor the id holds
    an underscore. *)
Theorem parse_filename_round_trip directory app_name stage app_id :
  contains "/" app_name = false -> contains "/" stage = false ->
  contains "/" app_id = false ->
  contains "_" stage = false -> contains "_" app_id = false ->
  parse_filename
    (directory +:+ "/" +:+ app_name +:+ "_" +:+ stage +:+ "_" +:+ app_id +:+ ".xml")
  = ([], Return (Some (app_name, stage, app_id))).
Proof.
  intros Ha Hs Hi Hus Hui.
  set (base := app_name +:+ "_" +:+ stage +:+ "_" +:+ app_id).
  set (name := base +:+ ".xml").
  assert (Hname : app_name +:+ "_" +:+ stage +:+ "_" +:+ app_id +:+ ".xml" = name).
  { unfold name, base. now rewrite !string_app_assoc. }
  assert (Hbn : basename (directory +:+ "/" +:+ name) = name).
  { unfold basename.
    change (directory +:+ "/" +:+ name) with (directory +:+ String "/" name).
    rewrite rsplit1_app; [reflexivity|].
    unfold name, base. rewrite !contains_app, Ha, Hs, Hi. reflexivity. }
  assert (Hext : splitext name = (base, ".xml")).
  { unfold splitext, name.
    change (base +:+ ".xml") with (base +:+ String "." "xml").
    rewrite rsplit1_app by reflexivity.
    destruct (all_dots base) eqn:Hd; [|reflexivity].
    apply (all_dots_contains "_") in Hd; [|discriminate].
    unfold base in Hd. rewrite !contains_app in Hd. simpl in Hd.
    rewrite orb_true_r in Hd. discriminate. }
  unfold parse_filename. rewrite Hname, Hbn, Hext. cbn [fst].
  unfold rsplit_2.
  replace base with ((app_name +:+ "_" +:+ stage) +:+ String "_" app_id)
    by (unfold base; now rewrite !string_app_assoc).
  rewrite (rsplit1_app "_" _ app_id Hui).
  change (app_name +:+ "_" +:+ stage) with (app_name +:+ String "_" stage).
  rewrite (rsplit1_app "_" _ stage Hus). reflexivity.
Qed.

Lemma parse_filename_round_trip_witness :
  parse_filename "/sboms/web_shop_build_a1.xml"
  = ([], Return (Some ("web_shop", "build", "a1"))).
Proof.
  apply (parse_filename_round_trip "/sboms" "web_shop" "build" "a1"); reflexivity.
Defined.

(** X2: when [parse_filename] returns three parts it prints nothing, the
    parts joined by underscores are the base name without its extension,
    and neither the stage nor the id holds an underscore. *)
Theorem parse_filename_parts filepath out app_name stage app_id :
  parse_filename filepath = (out, Return (Some (app_name, stage, app_id))) ->
  out = []
  /\ name_without_ext filepath = app_name +:+ "_" +:+ stage +:+ "_" +:+ app_id
  /\ contains "_" stage = false /\ contains "_" app_id = false.
Proof.
  unfold parse_filename, name_without_ext. intros H.
  destruct (rsplit_2_cases (fst (splitext (basename filepath))))
    as [[_ E]|[[_ (h & t & E)]|[_ (a & b & c & E & Hs & Hb & Hc)]]];
    rewrite E in H; try discriminate.
  injection H as <- <- <- <-. auto.
Qed.

Lemma parse_filename_parts_witness :
  name_without_ext good_file = "web_shop" +:+ "_" +:+ "build" +:+ "_" +:+ "a1"
  /\ contains "_" "build" = false /\ contains "_" "a1" = false.
Proof.
  apply (parse_filename_parts good_file [] "web_shop" "build" "a1" eq_refl).
Defined.

(** X3: [parse_filename] fails, printing the invalid-format message with
    the base name and returning the [None] triple, exactly when the base
    name without its extension holds fewer than two underscores. *)
Theorem parse_filename_needs_two_underscores filepath :
  ((occurrences "_" (name_without_ext filepath) < 2)%nat ->
     parse_filename filepath
     = ([MsgInvalidFilename (basename filepath)], Return None))
  /\ ((2 <= occurrences "_" (name_without_ext filepath))%nat ->
        exists app_name stage app_id,
          parse_filename filepath = ([], Return (Some (app_name, stage, app_id)))).
Proof.
  unfold parse_filename, name_without_ext.
  destruct (rsplit_2_cases (fst (splitext (basename filepath))))
    as [[Ho E]|[[Ho (h & t & E)]|[Ho (a & b & c & E & _)]]]; rewrite E;
    split; intros Hn; try lia; try reflexivity.
  exists a, b, c. reflexivity.
Qed.

Lemma parse_filename_needs_two_underscores_witness :
  parse_filename "/sboms/web_build.xml"
  = ([MsgInvalidFilename "web_build.xml"], Return None)
  /\ exists app_name stage app_id,
       parse_filename good_file = ([], Return (Some (app_name, stage, app_id))).
Proof.
  split.
  - apply (parse_filename_needs_two_underscores "/sboms/web_build.xml").
    vm_compute. lia.
  - apply (parse_filename_needs_two_underscores good_file). vm_compute. lia.
Defined.

(** ** More on the two calls to the server *)

(** X5: a response to the POST whose status is neither an HTTP error nor
    202 (a 200, a 201, a redirect left unfollowed) goes through the [else]
    branch of line 74: [submit_sbom_scan] prints the status and the body and
    returns [None]. *)
Theorem submit_other_status_is_rejected app_id stage path content r :
  http_error (status_code r) = false -> status_code r <> 202 ->
  submit_sbom_scan app_id stage path (ReadOk content) (Responds r)
  = ([MsgSubmitting app_id stage (basename path);
      MsgSubmitStatus (basename path) (status_code r) (text r)],
     Return PyNone).
Proof.
  unfold http_error. intros Herr Hne.
  unfold submit_sbom_scan, raise_for_status. simpl. rewrite Herr. simpl.
  destruct (Z.eqb_spec (status_code r) 202) as [E|_]; [contradiction|]. reflexivity.
Qed.

Lemma submit_other_status_witness :
  submit_sbom_scan "a1" "build" good_file (ReadOk "<bom/>") (Responds created)
  = ([MsgSubmitting "a1" "build" (basename good_file);
      MsgSubmitStatus (basename good_file) 201 "Created"],
     Return PyNone).
Proof.
  apply (submit_other_status_is_rejected "a1" "build" good_file "<bom/>" created);
    [reflexivity | discriminate].
Defined.

(** X6: the file is read before the server is contacted: when reading it
    raises, the outcome of [submit_sbom_scan] is the same whatever the
    server would answer, and the "Submitting scan" line is not printed. *)
Theorem submit_unreadable_file_sends_nothing app_id stage path e post post' :
  submit_sbom_scan app_id stage path (ReadRaises e) post
  = submit_sbom_scan app_id stage path (ReadRaises e) post'
  /\ existsb is_submitting
       (fst (submit_sbom_scan app_id stage path (ReadRaises e) post)) = false.
Proof.
  split; [reflexivity|].
  unfold submit_sbom_scan. simpl. destruct e; reflexivity.
Qed.

(** X7: [check_scan_status] returns [True] exactly when the GET is answered
    with a status that is no HTTP error and a JSON object whose [isError]
    (default [False]) or [reportHtmlUrl] is truthy. *)
Theorem check_scan_status_complete status_url get :
  snd (check_scan_status status_url get) = Return true
  <-> exists r d,
        get = Responds r /\ http_error (status_code r) = false
        /\ json r = Some (PyDict d)
        /\ (truthy (dict_get d "isError" (PyBool false)) = true
            \/ truthy (dict_get d "reportHtmlUrl" PyNone) = true).
Proof.
  unfold http_error. split.
  - destruct get as [e|r]; unfold check_scan_status, raise_for_status, response_json;
      simpl.
    + destruct (isinstance_RequestException e); discriminate.
    + destruct ((400 <=? status_code r) && (status_code r <? 600)) eqn:Herr; simpl;
        [discriminate|].
      destruct (json r) as [[| | | | |d]|] eqn:Hj;
        [..|destruct (json_error r)]; simpl; try discriminate.
      intros H. exists r, d. repeat split; auto.
      destruct (truthy (dict_get d "isError" (PyBool false))); [now left|].
      destruct (truthy (dict_get d "reportHtmlUrl" PyNone)); [now right|].
      simpl in H. discriminate.
  - intros (r & d & -> & Herr & Hj & Hdone).
    unfold check_scan_status, raise_for_status, response_json. simpl.
    rewrite Herr, Hj. simpl.
    destruct (truthy (dict_get d "isError" (PyBool false))); [reflexivity|].
    destruct Hdone as [Hd|Hd]; [discriminate|]. now rewrite Hd.
Qed.

Lemma check_scan_status_complete_witness :
  snd (check_scan_status status_url_1 (Responds report_ready)) = Return true
  /\ exists r d,
       Responds failed_with_report = Responds r /\ http_error (status_code r) = false
       /\ json r = Some (PyDict d)
       /\ (truthy (dict_get d "isError" (PyBool false)) = true
           \/ truthy (dict_get d "reportHtmlUrl" PyNone) = true).
Proof.
  split.
  - apply (check_scan_status_complete status_url_1 (Responds report_ready)).
    exists report_ready, [("reportHtmlUrl", PyStr "ui/links/report")].
    repeat split. now right.
  - apply (check_scan_status_complete status_url_1 (Responds failed_with_report)).
    reflexivity.
Defined.

(** X8: an error reported by the scan wins over a report: when [isError] is
    truthy, [check_scan_status] prints the failure with the server's
    [errorMessage], or "Unknown error." when there is none, and returns
    [True], whether or not a [reportHtmlUrl] is present. *)
Theorem check_scan_status_error_first status_url r d :
  http_error (status_code r) = false -> json r = Some (PyDict d) ->
  truthy (dict_get d "isError" (PyBool false)) = true ->
  check_scan_status status_url (Responds r)
  = ([MsgScanFailed status_url (dict_get d "errorMessage" (PyStr "Unknown error."))],
     Return true).
Proof.
  unfold http_error. intros Herr Hj He.
  unfold check_scan_status, raise_for_status, response_json. simpl.
  rewrite Herr, Hj. simpl. now rewrite He.
Qed.

Lemma check_scan_status_error_first_witness :
  check_scan_status status_url_1 (Responds failed_with_report)
  = ([MsgScanFailed status_url_1 (PyStr "Unknown error.")], Return true).
Proof.
  apply (check_scan_status_error_first status_url_1 failed_with_report
           [("isError", PyBool true); ("reportHtmlUrl", PyStr "ui/links/report")]);
    reflexivity.
Defined.

(** X10: [check_scan_status] raises to its caller, having printed nothing,
    exactly in three cases: the GET raised something that is not a
    [RequestException]; or it was answered with a status that is no HTTP
    error and [response.json()] raised something that is not a
    [RequestException] (a [ValueError] or a [RecursionError] of the
    decoder), which is then what the caller sees; or it was answered with
    a status that is no HTTP error and JSON that is not an object, in which
    case the exception is the [AttributeError] of [.get]. *)
Theorem check_scan_status_raises status_url get out e :
  check_scan_status status_url get = (out, Raise e)
  <-> out = []
      /\ ((get = Raises e /\ isinstance_RequestException e = false)
          \/ (exists r, get = Responds r /\ http_error (status_code r) = false
                        /\ json r = None /\ json_error r = e
                        /\ isinstance_RequestException e = false)
          \/ exists r v, get = Responds r /\ http_error (status_code r) = false
                         /\ json r = Some v /\ is_dict v = false
                         /\ e = AttributeError "get").
Proof.
  unfold http_error. split.
  - destruct get as [e0|r]; unfold check_scan_status, raise_for_status, response_json;
      simpl.
    + destruct (isinstance_RequestException e0) eqn:He; simpl; intros H;
        inversion H; subst. auto.
    + destruct ((400 <=? status_code r) && (status_code r <? 600)) eqn:Herr; simpl;
        [discriminate|].
      destruct (json r) as [v|] eqn:Hj; simpl.
      2:{ destruct (isinstance_RequestException (json_error r)) eqn:He; simpl;
            intros H; inversion H; subst.
          split; [reflexivity|]. right; left. exists r. auto. }
      destruct v; simpl; intros H;
        try (inversion H; subst; split; [reflexivity|]; right; right;
             eexists _, _; repeat split; eauto; fail).
      destruct (truthy (dict_get d "isError" (PyBool false))); simpl in H;
        [discriminate|].
      destruct (truthy (dict_get d "reportHtmlUrl" PyNone)); discriminate.
  - intros [-> [[-> He]|[(r & -> & Herr & Hj & <- & He)
                        |(r & v & -> & Herr & Hj & Hv & ->)]]];
      unfold check_scan_status, raise_for_status, response_json; simpl.
    + now rewrite He.
    + rewrite Herr, Hj. simpl. now rewrite He.
    + rewrite Herr, Hj. simpl. destruct v; try discriminate; reflexivity.
Qed.

Lemma check_scan_status_raises_witness :
  check_scan_status status_url_1 (Responds status_with_array)
  = ([], Raise (AttributeError "get"))
  /\ check_scan_status status_url_1 (Responds huge_integer_status)
     = ([], Raise (json_error huge_integer_status))
  /\ check_scan_status status_url_1 (Raises (OSError "Tunnel connection failed"))
     = ([], Raise (OSError "Tunnel connection failed")).
Proof.
  split; [|split].
  - apply (check_scan_status_raises status_url_1 (Responds status_with_array)).
    split; [reflexivity|]. right; right. exists status_with_array, (PyList []).
    repeat split.
  - apply (check_scan_status_raises status_url_1 (Responds huge_integer_status)).
    split; [reflexivity|]. right; left. exists huge_integer_status.
    repeat split.
  - apply (check_scan_status_raises status_url_1
             (Raises (OSError "Tunnel connection failed"))).
    split; [reflexivity|]. left. split; reflexivity.
Defined.

(** ** More on one worker *)

Lemma count_prints f out :
  (forall m, f (EvPrint m) = false) -> count f (map EvPrint out) = 0%nat.
Proof.
  intros Hf. induction out as [|m out IH]; [reflexivity|].
  now rewrite map_cons, count_cons, IH, Hf.
Qed.

(** What the final history of a call does not hold, no earlier one does. *)
Lemma quiet_history fw me N sh t f :
  t_pc (snd (solo fw me N sh t)) = PDone ->
  count f (t_hist (snd (solo fw me N sh t))) = 0%nat ->
  forall n, count f (t_hist (snd (solo fw me n sh t))) = 0%nat.
Proof.
  intros Hdone Hz n.
  destruct (solo_hist_final fw me N sh t n Hdone) as [evs Hevs].
  rewrite Hevs, count_app in Hz. lia.
Qed.

(** X4: when the file name does not give three non-empty parts -- fewer
    than two underscores, or an empty application name, stage or id -- the
    call of [scan_worker] returns through the parse-failure branch, releases
    its semaphore slot, and at no point of it has [submit_sbom_scan] or
    [check_scan_status] been called or [time.sleep] run. *)
Theorem unparsed_file_is_never_submitted fw me sh f total out parts :
  lock sh = None ->
  parse_filename f = (out, Return parts) -> all_parts parts = false ->
  t_pc (snd (solo fw me 12 sh (new_thread f total))) = PDone
  /\ t_exit (snd (solo fw me 12 sh (new_thread f total))) = Some ReturnedParseFailure
  /\ sem (fst (solo fw me 12 sh (new_thread f total))) = sem sh + 1
  /\ forall n,
       count is_submit (t_hist (snd (solo fw me n sh (new_thread f total)))) = 0%nat
       /\ count is_check (t_hist (snd (solo fw me n sh (new_thread f total)))) = 0%nat
       /\ count is_sleep (t_hist (snd (solo fw me n sh (new_thread f total)))) = 0%nat.
Proof.
  intros Hl Hp Hall.
  pose proof (run_parse_failure fw me sh f total out parts Hl Hp Hall) as Hrun.
  split; [now rewrite Hrun|]. split; [now rewrite Hrun|]. split; [now rewrite Hrun|].
  intros n. repeat split;
    apply (quiet_history fw me 12 sh (new_thread f total));
    rewrite Hrun; try reflexivity; cbn [snd t_hist];
    rewrite !count_app, !count_cons, !count_prints by reflexivity; reflexivity.
Qed.

Lemma unparsed_file_witness :
  t_exit (snd (solo (completes_after 1) 0 12 free (new_thread nameless_file 1)))
  = Some ReturnedParseFailure
  /\ forall n,
       count is_submit
         (t_hist (snd (solo (completes_after 1) 0 n free (new_thread nameless_file 1))))
       = 0%nat.
Proof.
  destruct (unparsed_file_is_never_submitted (completes_after 1) 0 free
              nameless_file 1 [] (Some ("", "build", "a1"))
              eq_refl eq_refl eq_refl)
    as (_ & Hexit & _ & Hquiet).
  split; [exact Hexit|]. intros n. apply (Hquiet n).
Defined.

(** X9: an HTTP error status on a status check (a 404, a 500) is caught
    like a network error: [check_scan_status] prints it and returns
    [False]; a worker whose status checks are all answered that way is in
    the polling loop after any number of steps. *)
Theorem status_http_errors_are_retried fw me sh url t :
  t_pc t = PSleep url 0 ->
  (forall i, exists r, fw_get fw i = Responds r /\ http_error (status_code r) = true) ->
  (forall i, exists r,
     fw_get fw i = Responds r
     /\ check_scan_status url (fw_get fw i)
        = ([MsgStatusError url (HTTPError (status_code r) (text r))], Return false))
  /\ forall n, polling (snd (solo fw me n sh t)) = true.
Proof.
  intros Hpc Herr.
  assert (Hcheck : forall i, exists r,
            fw_get fw i = Responds r
            /\ check_scan_status url (fw_get fw i)
               = ([MsgStatusError url (HTTPError (status_code r) (text r))],
                  Return false)).
  { intros i. destruct (Herr i) as (r & Hg & Hr). exists r. split; [exact Hg|].
    rewrite Hg. unfold http_error in Hr.
    unfold check_scan_status, raise_for_status. simpl. now rewrite Hr. }
  split; [exact Hcheck|].
  intros n. apply (polling_forever fw me sh url t Hpc).
  intros j _. unfold ends_polling. destruct (Hcheck j) as (r & _ & ->). reflexivity.
Qed.

Lemma status_http_errors_witness :
  polling (snd (solo status_not_found 0 101 free polling_thread)) = true
  /\ forall n, polling (snd (solo status_not_found 0 n free polling_thread)) = true.
Proof.
  assert (Hall : forall n,
            polling (snd (solo status_not_found 0 n free polling_thread)) = true).
  { apply (status_http_errors_are_retried status_not_found 0 free status_url_1
             polling_thread eq_refl).
    intros i. exists not_found. split; reflexivity. }
  split; [apply Hall | exact Hall].
Defined.

(** X11: when [submit_sbom_scan] raises, the call of [scan_worker] ends
    after the [finally] block alone: the semaphore slot is released, the
    counter goes up by exactly one, no status is ever checked, and the
    exception is the one left pending. *)
Theorem fault_in_submit_still_cleans_up
    fw me sh f total pout app_name stage app_id sout e :
  lock sh = None ->
  parse_filename f = (pout, Return (Some (app_name, stage, app_id))) ->
  all_parts (Some (app_name, stage, app_id)) = true ->
  submit_sbom_scan app_id stage f (fw_read fw) (fw_post fw) = (sout, Raise e) ->
  solo fw me 9 sh (new_thread f total)
  = ({| sem := sem sh + 1; lock := None; counter := counter sh + 1 |},
     {| t_file := f; t_total := total; t_pc := PDone;
        t_tmp := counter sh; t_current_count := Some (counter sh + 1);
        t_exit := Some (Fault e);
        t_hist := (EvParse :: map EvPrint pout)
                  ++ (EvSubmit :: map EvPrint sout)
                  ++ finally_events f total (sem sh + 1) (counter sh) |}).
Proof.
  intros Hl Hp Hall Hs.
  change 9%nat with (1 + (1 + 7))%nat.
  rewrite solo_add.
  rewrite (solo_one fw me sh _ _ _
             (step_parse_ok fw me sh (new_thread f total) _ _ _ _ eq_refl Hp Hall)).
  cbn [fst snd].
  rewrite solo_add.
  erewrite (solo_one fw me sh) by (apply step_submit; reflexivity).
  simpl t_file. rewrite Hs. cbn [fst snd].
  rewrite solo_finally by done.
  unfold after_finally, new_thread. normalize_thread.
  rewrite <- ?app_assoc. reflexivity.
Qed.

Lemma fault_in_submit_witness :
  t_exit (snd (solo accepts_with_array 0 9 free (new_thread good_file 1)))
  = Some (Fault (AttributeError "get"))
  /\ counter (fst (solo accepts_with_array 0 9 free (new_thread good_file 1))) = 1.
Proof.
  rewrite (fault_in_submit_still_cleans_up accepts_with_array 0 free good_file 1
             [] "web_shop" "build" "a1"
             [MsgSubmitting "a1" "build" "web_shop_build_a1.xml"]
             (AttributeError "get") eq_refl eq_refl eq_refl eq_refl).
  split; reflexivity.
Defined.

(** ** More on the whole program *)

(** A worker is stopped only when it has finished or waits for the lock. *)
Lemma scan_worker_blocked fw me sh t :
  scan_worker fw me sh t = None ->
  is_done t = true
  \/ (exists s j, t_pc t = PInc s Acquire /\ lock sh = Some j).
Proof.
  unfold scan_worker, is_done.
  destruct (t_pc t) as [| a s | u i | u i | s ph | | | |] eqn:Hpc; try discriminate; auto.
  - destruct (parse_filename (t_file t)) as [out [[[[a s] i]|]|e]];
      [destruct (all_parts _)|..]; discriminate.
  - destruct (submit_sbom_scan _ _ _ _ _) as [out [v|e]];
      [destruct (truthy v)|]; discriminate.
  - destruct (check_scan_status _ _) as [out [[|]|e]]; discriminate.
  - destruct ph; try discriminate.
    destruct (lock sh) as [j|] eqn:Hl; [|discriminate]. eauto.
Qed.

Lemma scan_worker_in_critical_section fw me sh t :
  in_critical_section t = true -> scan_worker fw me sh t <> None.
Proof.
  unfold in_critical_section, scan_worker.
  destruct (t_pc t) as [| | | |s []| | | |]; try discriminate.
Qed.

Lemma scan_worker_lock_moves fw me sh t sh' t' :
  scan_worker fw me sh t = Some (sh', t') ->
  (lock sh' = lock sh /\ in_critical_section t' = in_critical_section t)
  \/ (lock sh' = Some me /\ in_critical_section t' = true)
  \/ lock sh' = None.
Proof.
  intros H. unfold in_critical_section.
  worker_cases H; try (match goal with s : site |- _ => destruct s end);
    step_simpl; auto.
Qed.

Lemma scan_worker_counter_step fw me sh t sh' t' :
  scan_worker fw me sh t = Some (sh', t') ->
  (forall s, t_pc t = PInc s Store -> t_tmp t = counter sh) ->
  counter sh' = counter sh \/ counter sh' = counter sh + 1.
Proof.
  intros H Ht. worker_cases H; step_simpl; auto;
    right; now rewrite (Ht _ eq_refl).
Qed.

Lemma submits_once_step fw me sh t sh' t' :
  (count is_submit (t_hist t) <= 1)%nat
  /\ (before_submit t = true -> count is_submit (t_hist t) = 0%nat) ->
  scan_worker fw me sh t = Some (sh', t') ->
  (count is_submit (t_hist t') <= 1)%nat
  /\ (before_submit t' = true -> count is_submit (t_hist t') = 0%nat).
Proof.
  intros [Hle Hz] H. unfold before_submit in *.
  worker_cases H; try (match goal with s : site |- _ => destruct s end);
    step_simpl;
    rewrite ?count_app, ?count_cons, ?count_prints by reflexivity;
    cbn [is_submit count List.filter length Nat.add];
    try specialize (Hz eq_refl); split; try discriminate; try lia; auto.
Qed.

Lemma paced_step fw me sh t sh' t' :
  count is_sleep (t_hist t)
  = (count is_check (t_hist t) + (if at_check t then 1 else 0))%nat ->
  scan_worker fw me sh t = Some (sh', t') ->
  count is_sleep (t_hist t')
  = (count is_check (t_hist t') + (if at_check t' then 1 else 0))%nat.
Proof.
  intros Hp H. unfold at_check in *.
  worker_cases H; try (match goal with s : site |- _ => destruct s end);
    step_simpl;
    rewrite ?count_app, ?count_cons, ?count_prints by reflexivity;
    cbn [is_sleep is_check count List.filter length Nat.add]; lia.
Qed.

Lemma total_positive g (ts : list thread) :
  (forall t, 0 <= g t) -> 0 < total g ts ->
  exists i t, ts !! i = Some t /\ 0 < g t.
Proof.
  intros Hg. induction ts as [|a ts IH]; simpl; [lia|]. intros H.
  destruct (Z.ltb_spec 0 (g a)) as [Ha|Ha].
  - exists 0%nat, a. auto.
  - specialize (Hg a). destruct IH as (i & t & Hi & Ht); [lia|].
    exists (S i), t. auto.
Qed.

(** The main thread leaves the lock, the counter and the started workers
    as they are. *)
Lemma main_keeps_workers s s' :
  main s = Some s' ->
  lock (st_shared s') = lock (st_shared s)
  /\ counter (st_shared s') = counter (st_shared s)
  /\ (forall k t, st_threads s !! k = Some t -> st_threads s' !! k = Some t)
  /\ (forall k t, st_threads s' !! k = Some t ->
        st_threads s !! k = Some t \/ exists f, t = new_thread f (st_total s)).
Proof.
  unfold main. intros H.
  destruct (st_main s) as [[|f rest]|f rest|k| |code]; try discriminate.
  - injection H as <-. auto.
  - destruct (0 <? sem (st_shared s)); [|discriminate]. injection H as <-. auto.
  - injection H as <-. cbn [st_shared st_threads]. repeat split; auto.
    + intros k t Hk. now apply lookup_app_l_Some.
    + intros k t Hk. apply lookup_started in Hk as [Hk|[_ ->]]; eauto.
  - destruct (st_threads s !! k) as [t|]; [destruct (is_done t)|];
      try discriminate; injection H as <-; auto.
Qed.

Section Progress.

Variable w : world.
Variable sbom_files : list string.

(** What every step of a worker keeps holds of every worker of every
    reachable state. *)
Lemma worker_invariant (P : thread -> Prop) s :
  (forall f total, P (new_thread f total)) ->
  (forall fw me sh t sh' t',
     P t -> scan_worker fw me sh t = Some (sh', t') -> P t') ->
  reachable w sbom_files s ->
  forall i t, st_threads s !! i = Some t -> P t.
Proof.
  intros Hnew Hstep. induction 1 as [|x s s' Hr IH H].
  - intros i t Hi. destruct sbom_files; destruct i; discriminate.
  - destruct x as [|j]; simpl in H.
    + intros i t Hi.
      destruct (main_keeps_workers s s' H) as (_ & _ & _ & Hold).
      destruct (Hold i t Hi) as [Hi'|[f ->]]; eauto.
    + destruct (st_threads s !! j) as [t|] eqn:Hj; [|discriminate].
      destruct (scan_worker (w (t_file t)) j (st_shared s) t) as [[sh' t']|] eqn:Hw;
        [|discriminate].
      injection H as <-. intros i ti Hi. cbn [st_threads] in Hi.
      apply list_lookup_insert_Some in Hi as [(<- & <- & _)|[Hne Hi]]; eauto.
Qed.

Lemma lock_held_reachable s : reachable w sbom_files s -> lock_held s.
Proof.
  induction 1 as [|x s s' Hr IH Hstep].
  - intros i Hi. destruct sbom_files; discriminate.
  - destruct x as [|i]; simpl in Hstep.
    + intros j Hj.
      destruct (main_keeps_workers s s' Hstep) as (Hl & _ & Hk & _).
      rewrite Hl in Hj. destruct (IH j Hj) as (t & Ht & Hin). exists t. auto.
    + destruct (st_threads s !! i) as [t|] eqn:Hi; [|discriminate].
      destruct (scan_worker (w (t_file t)) i (st_shared s) t) as [[sh' t']|] eqn:Hw;
        [|discriminate].
      injection Hstep as <-. intros j Hj. cbn [st_shared st_threads] in *.
      assert (Hlen : (i < length (st_threads s))%nat) by (eapply lookup_lt_Some; eauto).
      destruct (scan_worker_lock_moves _ _ _ _ _ _ Hw) as [[Hl Hin]|[[Hl Hin]|Hl]].
      * rewrite Hl in Hj. destruct (IH j Hj) as (tj & Htj & Hinj).
        destruct (Nat.eq_dec j i) as [->|Hne].
        -- exists t'. split; [now apply list_lookup_insert_eq|]. congruence.
        -- exists tj. split; [now rewrite list_lookup_insert_ne|assumption].
      * assert (j = i) by congruence. subst j.
        exists t'. split; [now apply list_lookup_insert_eq | assumption].
      * congruence.
Qed.

(** A worker that has not finished can move, or the holder of the lock can. *)
Lemma unfinished_worker_moves s i t :
  reachable w sbom_files s ->
  st_threads s !! i = Some t -> is_done t = false ->
  exists j s', step w (Worker j) s = Some s'.
Proof.
  intros Hr Hi Hd.
  assert (Hmove : forall k tk, st_threads s !! k = Some tk ->
            scan_worker (w (t_file tk)) k (st_shared s) tk <> None ->
            exists s', step w (Worker k) s = Some s').
  { intros k tk Hk Hs. simpl. rewrite Hk.
    destruct (scan_worker _ _ _ _) as [[sh' t']|]; [eauto | contradiction]. }
  destruct (scan_worker (w (t_file t)) i (st_shared s) t) as [[sh' t']|] eqn:Hw.
  - exists i. apply (Hmove i t Hi). congruence.
  - apply scan_worker_blocked in Hw as [Hdone|(st & j & _ & Hl)]; [congruence|].
    destruct (lock_held_reachable s Hr j Hl) as (tj & Hj & Hin).
    exists j. apply (Hmove j tj Hj).
    now apply scan_worker_in_critical_section.
Qed.

(** X12: in every reachable state at most one worker is inside a
    [with lock] block. *)
Theorem one_worker_in_a_locked_block s i j ti tj :
  reachable w sbom_files s ->
  st_threads s !! i = Some ti -> st_threads s !! j = Some tj ->
  in_critical_section ti = true -> in_critical_section tj = true ->
  i = j.
Proof.
  intros Hr Hi Hj Hci Hcj. pose proof (invariant_reachable _ _ _ Hr) as Hinv.
  pose proof (inv_lock _ _ Hinv i ti Hi Hci).
  pose proof (inv_lock _ _ Hinv j tj Hj Hcj). congruence.
Qed.

(** X13: a step of the program, by the main thread or by any worker,
    leaves the counter as it is or adds exactly one to it: the count never
    goes down and never jumps. *)
Theorem counter_moves_up_by_one x s s' :
  reachable w sbom_files s -> step w x s = Some s' ->
  counter (st_shared s') = counter (st_shared s)
  \/ counter (st_shared s') = counter (st_shared s) + 1.
Proof.
  intros Hr H. pose proof (invariant_reachable _ _ _ Hr) as Hinv.
  destruct x as [|i]; simpl in H.
  - left. apply (main_keeps_workers s s' H).
  - destruct (st_threads s !! i) as [t|] eqn:Hi; [|discriminate].
    destruct (scan_worker (w (t_file t)) i (st_shared s) t) as [[sh' t']|] eqn:Hw;
      [|discriminate].
    injection H as <-. cbn [st_shared].
    apply (scan_worker_counter_step _ _ _ _ _ _ Hw).
    intros st Hp. apply (inv_tmp _ _ Hinv i t st Hi Hp).
Qed.

(** X14: in every reachable state the files of the workers started so far,
    in the order of their start, followed by the files the main thread has
    still to launch, are the list [sbom_files]: no file is skipped, started
    twice or taken out of order. *)
Theorem files_are_started_in_order s :
  reachable w sbom_files s ->
  map t_file (st_threads s) ++ pending (st_main s) = sbom_files.
Proof. intros Hr. apply (inv_files _ _ (invariant_reachable _ _ _ Hr)). Qed.

(** X15: the main thread gets past its joining loop (and prints that all
    files have been processed) only when a worker has been started for
    each file and every worker has finished. *)
Theorem join_waits_for_every_worker s :
  reachable w sbom_files s -> finished s = true ->
  map t_file (st_threads s) = sbom_files
  /\ forall i t, st_threads s !! i = Some t -> is_done t = true.
Proof.
  intros Hr Hf. pose proof (invariant_reachable _ _ _ Hr) as Hinv. split.
  - rewrite <- (inv_files _ _ Hinv).
    unfold finished in Hf. destruct (st_main s); try discriminate.
    simpl. now rewrite app_nil_r.
  - apply (finished_all_done _ _ Hinv Hf).
Qed.

(** X16: the program cannot deadlock: in every reachable state either the
    main thread is over (it has joined every worker, or exited for want of
    files) or some thread can take a step. *)
Theorem no_deadlock s :
  reachable w sbom_files s ->
  main_over s = true \/ exists x s', step w x s = Some s'.
Proof.
  intros Hr. pose proof (invariant_reachable _ _ _ Hr) as Hinv.
  unfold main_over.
  destruct (st_main s) as [[|f rest]|f rest|k| |code] eqn:Hm; auto; right.
  - exists Main. simpl. unfold main. rewrite Hm. eauto.
  - destruct (Z.ltb_spec 0 (sem (st_shared s))) as [Hpos|Hzero].
    + exists Main. simpl. unfold main. rewrite Hm.
      apply Z.ltb_lt in Hpos. rewrite Hpos. eauto.
    + pose proof (inv_sem _ _ Hinv). pose proof (inv_gate _ _ Hinv) as Hg.
      unfold holders in Hg. rewrite Hm in Hg.
      destruct (total_positive (fun t => Z.b2z (holds_slot t)) (st_threads s))
        as (i & t & Hi & Ht).
      { intros t. destruct (holds_slot t); simpl; lia. }
      { unfold MAX_CONCURRENT_SCANS in Hg. lia. }
      destruct (unfinished_worker_moves s i t Hr Hi) as (j & s' & Hs); [|eauto].
      unfold is_done, holds_slot in *. destruct (t_pc t); try reflexivity.
      simpl in Ht. lia.
  - exists Main. simpl. unfold main. rewrite Hm. eauto.
  - destruct (st_threads s !! k) as [t|] eqn:Hk.
    + destruct (is_done t) eqn:Hd.
      * exists Main. simpl. unfold main. rewrite Hm, Hk, Hd. eauto.
      * destruct (unfinished_worker_moves s k t Hr Hk Hd) as (j & s' & Hs). eauto.
    + exists Main. simpl. unfold main. rewrite Hm, Hk. eauto.
Qed.

(** X17: under every interleaving a worker calls [submit_sbom_scan] at
    most once for its file (a failed submission is never retried), and not
    at all before it has parsed the file name. *)
Theorem each_file_is_submitted_at_most_once s i t :
  reachable w sbom_files s -> st_threads s !! i = Some t ->
  (count is_submit (t_hist t) <= 1)%nat
  /\ (before_submit t = true -> count is_submit (t_hist t) = 0%nat).
Proof.
  intros Hr. revert i t.
  apply (worker_invariant
           (fun t => (count is_submit (t_hist t) <= 1)%nat
                     /\ (before_submit t = true -> count is_submit (t_hist t) = 0%nat))
           s); [| |exact Hr].
  - intros f total. split; [unfold count; simpl; lia | reflexivity].
  - intros fw me sh t sh' t'. apply submits_once_step.
Qed.

(** X18: under every interleaving a worker has slept once for each status
    check it has made, plus once more when it stands just before a check:
    no status check is made without its own sleep before it. *)
Theorem one_sleep_before_each_check s i t :
  reachable w sbom_files s -> st_threads s !! i = Some t ->
  count is_sleep (t_hist t)
  = (count is_check (t_hist t) + (if at_check t then 1 else 0))%nat.
Proof.
  intros Hr. revert i t.
  apply (worker_invariant
           (fun t => count is_sleep (t_hist t)
                     = (count is_check (t_hist t) + (if at_check t then 1 else 0))%nat)
           s); [| |exact Hr].
  - intros f total. reflexivity.
  - intros fw me sh t sh' t'. apply paced_step.
Qed.

End Progress.

(** ** The further properties on sample runs *)

Lemma one_worker_in_a_locked_block_witness :
  let s := run completing_world (fair 2 10) (init two_files) in
  exists t, st_threads s !! 0%nat = Some t
            /\ in_critical_section t = true /\ 0%nat = 0%nat.
Proof.
  intros s.
  assert (Hr : reachable completing_world two_files s)
    by (apply reachable_run; constructor).
  eexists. split; [vm_compute; reflexivity|]. split; [vm_compute; reflexivity|].
  eapply (one_worker_in_a_locked_block completing_world two_files s 0 0 _ _ Hr);
    vm_compute; reflexivity.
Defined.

Lemma counter_moves_up_by_one_witness :
  let s := run completing_world (fair 2 4) (init two_files) in
  exists s', step completing_world (Worker 0) s = Some s'
             /\ (counter (st_shared s') = counter (st_shared s)
                 \/ counter (st_shared s') = counter (st_shared s) + 1).
Proof.
  intros s.
  assert (Hr : reachable completing_world two_files s)
    by (apply reachable_run; constructor).
  eexists. split; [vm_compute; reflexivity|].
  apply (counter_moves_up_by_one completing_world two_files (Worker 0) s _ Hr).
  vm_compute; reflexivity.
Defined.

Lemma files_are_started_in_order_witness :
  let s := run completing_world (fair 2 3) (init two_files) in
  reachable completing_world two_files s
  /\ map t_file (st_threads s) ++ pending (st_main s) = two_files.
Proof.
  intros s.
  assert (Hr : reachable completing_world two_files s)
    by (apply reachable_run; constructor).
  split; [exact Hr|].
  exact (files_are_started_in_order completing_world two_files s Hr).
Defined.

Lemma join_waits_witness :
  let s := run completing_world (fair 2 40) (init two_files) in
  finished s = true
  /\ map t_file (st_threads s) = two_files
  /\ forall i t, st_threads s !! i = Some t -> is_done t = true.
Proof.
  intros s.
  assert (Hr : reachable completing_world two_files s)
    by (apply reachable_run; constructor).
  assert (Hf : finished s = true) by (vm_compute; reflexivity).
  split; [exact Hf|].
  exact (join_waits_for_every_worker completing_world two_files s Hr Hf).
Defined.

Lemma no_deadlock_witness :
  let s := run completing_world (fair 2 10) (init two_files) in
  reachable completing_world two_files s
  /\ (main_over s = true \/ exists x s', step completing_world x s = Some s').
Proof.
  intros s.
  assert (Hr : reachable completing_world two_files s)
    by (apply reachable_run; constructor).
  split; [exact Hr|]. exact (no_deadlock completing_world two_files s Hr).
Defined.

Lemma submitted_at_most_once_witness :
  let s := run completing_world (fair 2 40) (init two_files) in
  exists t, st_threads s !! 1%nat = Some t
            /\ (count is_submit (t_hist t) <= 1)%nat.
Proof.
  intros s.
  assert (Hr : reachable completing_world two_files s)
    by (apply reachable_run; constructor).
  eexists. split; [vm_compute; reflexivity|].
  eapply (each_file_is_submitted_at_most_once completing_world two_files s 1 _ Hr).
  vm_compute; reflexivity.
Defined.

Lemma one_sleep_before_each_check_witness :
  let s := run completing_world (fair 2 8) (init two_files) in
  exists t, st_threads s !! 1%nat = Some t
            /\ count is_sleep (t_hist t)
               = (count is_check (t_hist t) + (if at_check t then 1 else 0))%nat.
Proof.
  intros s.
  assert (Hr : reachable completing_world two_files s)
    by (apply reachable_run; constructor).
  eexists. split; [vm_compute; reflexivity|].
  eapply (one_sleep_before_each_check completing_world two_files s 1 _ Hr).
  vm_compute; reflexivity.
Defined.

Lemma final_counter_witness :
  let s := run mixed_world (fair 4 40) (init mixed_files) in
  finished s = true
  /\ early_returns s = 2
  /\ counter (st_shared s) = Z.of_nat (length mixed_files) + early_returns s.
Proof.
  intros s.
  assert (Hr : reachable mixed_world mixed_files s)
    by (apply reachable_run; constructor).
  assert (Hf : finished s = true) by (vm_compute; reflexivity).
  split; [exact Hf|]. split; [vm_compute; reflexivity|].
  exact (final_counter mixed_world mixed_files s Hr Hf).
Defined.
